(** * Veo gallery: the gallery application and its remix editor

    A shallow embedding of [App.tsx] (the gallery, the upload handler, the
    generation orchestrator and its error handler), of the remix editor
    page ([EditVideoPage]: [handleSave], the variation counter, the mask
    editor) and of [types.ts].

    Strings.  A JavaScript string is a sequence of UTF-16 code units.  The
    model uses [string], a sequence of 8-bit characters, read as the code
    units below 256 (Basic Latin and Latin-1 Supplement).  On that range
    [toLowerCase] and [trim] act code unit by code unit, which is how they
    are written below; what is stated with them is stated of texts in
    that range.  Module [Wide] has the search filter over strings of
    16-bit code units, with the lower-casing of the Greek letters and its
    rule for the final sigma, where lower-casing is no longer unit by
    unit; on the texts of the 8-bit range the two agree.

    Asynchrony.  An [async] function is a computation that is either still
    pending, rejected with a thrown value, or fulfilled.  Rejection and
    fulfilment are the two sides of [Result]; the unbounded polling loop is
    run with a bound on the number of polls and answers [None] while the
    job is still pending at that bound.

    Collaborators.  The generation service, [fetch], [decodeURIComponent],
    the file reader and [randomUUID] are not code of the application; they
    are the fields of [World] (or arguments), with the shapes the code uses
    them at.  Each one that can throw or reject answers with a [Result]:
    the two calls of the service, [decodeURIComponent] (a malformed URI),
    [fetch] (a request that gets no answer) and the reading of the body of
    an answer. *)

From Stdlib Require Import Strings.String Strings.Ascii List ZArith Lia Bool Arith.
From Stdlib Require Import DecimalString.
From Stdlib Require DecimalPos DecimalZ.
Import ListNotations.
Open Scope string_scope.
Open Scope nat_scope.

Set Implicit Arguments.

(** ** JavaScript primitives used by the application *)

Module JS.

(** A thrown value: an [Error] object with its message, or anything else
    ([error instanceof Error] is false for the second). *)
Inductive Thrown : Type :=
| ErrorObj (message : string)
| NonError (value : string).

(** The settled outcome of a promise: rejected or fulfilled. *)
Definition Result (A : Type) : Type := (Thrown + A)%type.

Definition resolve {A} (a : A) : Result A := inr a.
Definition throw {A} (e : Thrown) : Result A := inl e.

Definition bind {A B} (r : Result A) (k : A -> Result B) : Result B :=
  match r with
  | inl e => inl e
  | inr a => k a
  end.

(** The line feed of the ["\n"] escape. *)
Definition LF : string := String "010"%char "".

Definition code (c : ascii) : nat := nat_of_ascii c.

(** [s.startsWith(p)], the one-position test behind [includes]. *)
Fixpoint startsWith (p s : string) : bool :=
  match p, s with
  | EmptyString, _ => true
  | String _ _, EmptyString => false
  | String a p', String b s' => Ascii.eqb a b && startsWith p' s'
  end.

(** [s.includes(needle)]: [needle] occurs at some position of [s]. *)
Fixpoint includes (s needle : string) : bool :=
  startsWith needle s
  || match s with
     | EmptyString => false
     | String _ s' => includes s' needle
     end.

(** Upper-case letters of the Latin-1 range: A-Z, U+00C0-U+00D6 and
    U+00D8-U+00DE.  Each has its lower-case form 32 places later. *)
Definition isUpper (c : ascii) : bool :=
  let n := code c in
  ((65 <=? n) && (n <=? 90))
  || ((192 <=? n) && (n <=? 222) && negb (n =? 215)).

Definition lowerChar (c : ascii) : ascii :=
  if isUpper c then ascii_of_nat (code c + 32) else c.

(** [s.toLowerCase()], for a string of code units below 256. *)
Fixpoint toLowerCase (s : string) : string :=
  match s with
  | EmptyString => EmptyString
  | String c s' => String (lowerChar c) (toLowerCase s')
  end.

(** White space and line terminators of the range: TAB, LF, VT, FF, CR,
    SP and NBSP. *)
Definition isWhiteSpace (c : ascii) : bool :=
  let n := code c in
  ((9 <=? n) && (n <=? 13)) || (n =? 32) || (n =? 160).

Fixpoint trimStart (s : string) : string :=
  match s with
  | EmptyString => EmptyString
  | String c s' => if isWhiteSpace c then trimStart s' else s
  end.

Fixpoint trimEnd (s : string) : string :=
  match s with
  | EmptyString => EmptyString
  | String c s' =>
      match trimEnd s' with
      | EmptyString => if isWhiteSpace c then EmptyString else String c EmptyString
      | String _ _ as r => String c r
      end
  end.

(** [s.trim()]. *)
Definition trim (s : string) : string := trimEnd (trimStart s).

(** [String(n)] for an integer [n], as a template literal interpolates
    it: decimal digits, with a minus sign below zero. *)
Definition numberToString (n : Z) : string :=
  NilZero.string_of_int (Z.to_int n).

(** [s.split(sep)] for a one-character separator. *)
Fixpoint split (sep : ascii) (s : string) : list string :=
  match s with
  | EmptyString => [EmptyString]
  | String c s' =>
      if Ascii.eqb c sep then EmptyString :: split sep s'
      else match split sep s' with
           | [] => [String c EmptyString]
           | piece :: pieces => String c piece :: pieces
           end
  end.

(** Interpolation of a possibly [undefined] string in a template literal. *)
Definition interpolate (o : option string) : string :=
  match o with
  | Some s => s
  | None => "undefined"
  end.

(** The body of an extension, [[^/.]+$]: one or more characters up to the
    end of the input, none of them a slash or a dot. *)
Fixpoint noSlashNoDot (s : string) : bool :=
  match s with
  | EmptyString => true
  | String c s' =>
      negb (Ascii.eqb c "/"%char) && negb (Ascii.eqb c "."%char) && noSlashNoDot s'
  end.

Definition extensionBody (s : string) : bool :=
  match s with
  | EmptyString => false
  | String _ _ => noSlashNoDot s
  end.

(** [s.replace(/\.[^/.]+$/, '')]: the match is tried at each position
    from the left; at a position it succeeds when the character is a dot
    and the rest of the input is an extension body, and the match (which
    then runs to the end of the input) is replaced by the empty string. *)
Fixpoint replaceExtension (s : string) : string :=
  match s with
  | EmptyString => EmptyString
  | String c s' =>
      if Ascii.eqb c "."%char && extensionBody s' then EmptyString
      else String c (replaceExtension s')
  end.

(** [Math.min] and [Math.max] on integers. *)
Definition Math_min (a b : Z) : Z := Z.min a b.
Definition Math_max (a b : Z) : Z := Z.max a b.

End JS.

Import JS.

Notation "x <- c ;; k" := (bind c (fun x => k))
  (at level 61, c at next level, right associativity).

(** The double quote, for the titles that quote another string. *)
Definition DQUOTE : string := String "034"%char "".

(** ** types.ts *)

Module Video.
Record t : Type := mk {
  id : string;
  videoUrl : string;
  title : string;
  description : string;
}.
End Video.

Inductive ErrorType : Type :=
| api_key
| generation_failed
| network
| unknown.

Module ErrorDetails.
Record t : Type := mk {
  title : string;
  messages : list string;
  type : ErrorType;
}.
End ErrorDetails.

(** ** Generation options, shared by the editor page and the application *)

Inductive Quality : Type := Q_fast | Q_quality.
Inductive Duration : Type := D_short | D_medium | D_long.
Inductive AspectRatio : Type := AR_16_9 | AR_9_16 | AR_1_1.

Module Options.
Record t : Type := mk {
  numberOfVideos : Z;
  quality : Quality;
  duration : Duration;
  aspectRatio : AspectRatio;
}.
End Options.

(** ** The collaborators *)

(** A generated video of the service's response, with [video.uri]. *)
Record GeneratedVideo : Type := { uri : string }.

Record GenerateVideosResponse : Type := {
  generatedVideos : option (list GeneratedVideo);
}.

(** The long-running job: its completion flag and, once there is one, its
    response. *)
Record Operation : Type := {
  done : bool;
  response : option GenerateVideosResponse;
}.

Record GenerateVideosRequest : Type := {
  model : string;
  prompt : string;
  config_numberOfVideos : Z;
  config_aspectRatio : AspectRatio;
}.

(** A blob, by the data URL a file reader produces for it. *)
Record Blob : Type := { readAsDataURL : string }.

(** The answer to a [fetch]: success or an HTTP failure with status and
    reason, and [res.blob()], the reading of the body, which gives the
    blob or rejects, some time after the answer has arrived. *)
Record FetchResponse : Type := {
  ok : bool;
  status : Z;
  statusText : string;
  blob : Result Blob;
  blobDelay : nat;
}.

(** A file of the local file picker. *)
Record File : Type := { name : string }.

Record World : Type := {
  API_KEY : string;
  (** [ai.models.generateVideos]: a job, or a rejection (credential, quota). *)
  generateVideos : GenerateVideosRequest -> Result Operation;
  (** [ai.operations.getVideosOperation], at the k-th poll. *)
  getVideosOperation : nat -> Operation -> Result Operation;
  (** [decodeURIComponent]: the decoded text, or the [URIError] thrown for
      a malformed escape sequence. *)
  decodeURIComponent : string -> Result string;
  (** [fetch]: the time at which the promise settles, and either the
      rejection (no answer: network failure, blocked request) or the
      answer. *)
  fetch : string -> nat * Result FetchResponse;
  (** [URL.createObjectURL]. *)
  createObjectURL : File -> string;
  (** [self.crypto.randomUUID], at the k-th call of a handler. *)
  randomUUID : nat -> string;
}.

(** ** The remix editor page *)

Module VideoMaskEditor.

(** The component's state, and what is on the canvas: the points the
    pointer went through while drawing, since the last clear. *)
Record State : Type := mk {
  isDrawing : bool;
  hasMask : bool;
  canvas : list (Z * Z);
}.

Definition initial : State := mk false false [].

(** Each handler returns the new state and the call of [onMaskChange] it
    makes, if any.  The canvas and its 2d context are there once the
    component is mounted, so the early returns on a missing context are
    not taken. *)
Definition startDrawing (offsetX offsetY : Z) (s : State) : State * option bool :=
  let marked := (canvas s ++ [(offsetX, offsetY)])%list in
  if negb (hasMask s) then (mk true true marked, Some true)
  else (mk true (hasMask s) marked, None).

Definition draw (offsetX offsetY : Z) (s : State) : State * option bool :=
  if negb (isDrawing s) then (s, None)
  else (mk (isDrawing s) (hasMask s) (canvas s ++ [(offsetX, offsetY)])%list, None).

Definition stopDrawing (s : State) : State * option bool :=
  if negb (isDrawing s) then (s, None)
  else (mk false (hasMask s) (canvas s), None).

Definition clearMask (s : State) : State * option bool :=
  (mk (isDrawing s) false [], Some false).

(** The pointer and button events of the component. *)
Inductive Event : Type :=
| MouseDown (offsetX offsetY : Z)
| MouseMove (offsetX offsetY : Z)
| MouseUp
| MouseLeave
| ClickClear.

Definition handle (e : Event) : State -> State * option bool :=
  match e with
  | MouseDown x y => startDrawing x y
  | MouseMove x y => draw x y
  | MouseUp | MouseLeave => stopDrawing
  | ClickClear => clearMask
  end.

(** The component under a sequence of events. *)
Fixpoint run (events : list Event) (s : State) : State :=
  match events with
  | [] => s
  | e :: rest => run rest (fst (handle e s))
  end.

End VideoMaskEditor.

Module EditVideoPage.

Record State : Type := mk {
  editPrompt : string;
  isMaskActive : bool;
  numberOfVideos : Z;
  quality : Quality;
  duration : Duration;
  aspectRatio : AspectRatio;
  maskEditor : VideoMaskEditor.State;
}.

Definition initial : State :=
  mk "" false 1%Z Q_fast D_medium AR_16_9 VideoMaskEditor.initial.

Definition setNumberOfVideos (f : Z -> Z) (p : State) : State :=
  mk (editPrompt p) (isMaskActive p) (f (numberOfVideos p)) (quality p)
     (duration p) (aspectRatio p) (maskEditor p).

(** A handler of the mask editor, with [onMaskChange] wired to
    [setIsMaskActive]. *)
Definition onMaskEditor
    (handler : VideoMaskEditor.State -> VideoMaskEditor.State * option bool)
    (p : State) : State :=
  let (m, change) := handler (maskEditor p) in
  mk (editPrompt p)
     (match change with Some b => b | None => isMaskActive p end)
     (numberOfVideos p) (quality p) (duration p) (aspectRatio p) m.

Fixpoint onMaskEvents (events : list VideoMaskEditor.Event) (p : State) : State :=
  match events with
  | [] => p
  | e :: rest => onMaskEvents rest (onMaskEditor (VideoMaskEditor.handle e) p)
  end.

Definition setEditPrompt (text : string) (p : State) : State :=
  mk text (isMaskActive p) (numberOfVideos p) (quality p) (duration p)
     (aspectRatio p) (maskEditor p).

(** [handleSave]: the arguments [onSave] is called with. *)
Definition handleSave (video : Video.t) (p : State) : Video.t * Options.t :=
  let finalDescription :=
    if isMaskActive p && negb (String.eqb (trim (editPrompt p)) "")
    then Video.description video ++ LF ++ LF
         ++ "In the highlighted area, please " ++ editPrompt p ++ "."
    else Video.description video in
  (Video.mk (Video.id video) (Video.videoUrl video) (Video.title video)
     finalDescription,
   Options.mk (numberOfVideos p) (quality p) (duration p) (aspectRatio p)).

Definition incrementVideos : State -> State :=
  setNumberOfVideos (fun v => Math_min (v + 1) 4).

Definition decrementVideos : State -> State :=
  setNumberOfVideos (fun v => Math_max (v - 1) 1).

(** The two buttons of the variation counter. *)
Inductive CounterAction : Type := Increment | Decrement.

Definition press (a : CounterAction) : State -> State :=
  match a with
  | Increment => incrementVideos
  | Decrement => decrementVideos
  end.

(** The states the page goes through under a sequence of presses, the
    starting state first. *)
Fixpoint pressAll (actions : list CounterAction) (p : State) : list State :=
  match actions with
  | [] => [p]
  | a :: rest => p :: pressAll rest (press a p)
  end.

(** The setters of the three option groups. *)
Definition setQuality (q : Quality) (p : State) : State :=
  mk (editPrompt p) (isMaskActive p) (numberOfVideos p) q (duration p)
     (aspectRatio p) (maskEditor p).
Definition setDuration (d : Duration) (p : State) : State :=
  mk (editPrompt p) (isMaskActive p) (numberOfVideos p) (quality p) d
     (aspectRatio p) (maskEditor p).
Definition setAspectRatio (a : AspectRatio) (p : State) : State :=
  mk (editPrompt p) (isMaskActive p) (numberOfVideos p) (quality p) (duration p)
     a (maskEditor p).

(** What the user can do on the page.  The instruction field is disabled
    while the mask is not active, so typing reaches [setEditPrompt] only
    when it is. *)
Inductive Event : Type :=
| OnMask (e : VideoMaskEditor.Event)
| TypeInstruction (text : string)
| Press (a : CounterAction)
| PickQuality (q : Quality)
| PickDuration (d : Duration)
| PickAspectRatio (a : AspectRatio).

Definition step (e : Event) (p : State) : State :=
  match e with
  | OnMask m => onMaskEditor (VideoMaskEditor.handle m) p
  | TypeInstruction text => if isMaskActive p then setEditPrompt text p else p
  | Press a => press a p
  | PickQuality q => setQuality q p
  | PickDuration d => setDuration d p
  | PickAspectRatio a => setAspectRatio a p
  end.

Fixpoint run (events : list Event) (p : State) : State :=
  match events with
  | [] => p
  | e :: rest => run rest (step e p)
  end.

End EditVideoPage.

(** ** App.tsx *)

Module App.

Definition VEO_MODEL_NAME : string := "veo-3.0-fast-generate-001".

(** [bloblToBase64]: the part of the data URL after its first comma
    ([undefined] when there is none). *)
Definition bloblToBase64 (b : Blob) : option string :=
  nth_error (split ","%char (readAsDataURL b)) 1.

(** [Promise.all] over promises that each settle at some time: the join
    rejects with the rejection that arrives first (the lower index first
    among those of one time) and otherwise fulfils with all the values,
    in index order. *)
Fixpoint firstRejection {A} (ps : list (nat * Result A)) : option (nat * Thrown) :=
  match ps with
  | [] => None
  | (_, inr _) :: rest => firstRejection rest
  | (t, inl e) :: rest =>
      match firstRejection rest with
      | Some (t', e') => if t' <? t then Some (t', e') else Some (t, e)
      | None => Some (t, e)
      end
  end.

Fixpoint fulfilled {A} (ps : list (nat * Result A)) : list A :=
  match ps with
  | [] => []
  | (_, inr a) :: rest => a :: fulfilled rest
  | (_, inl _) :: rest => fulfilled rest
  end.

Definition Promise_all {A} (ps : list (nat * Result A)) : Result (list A) :=
  match firstRejection ps with
  | Some (_, e) => throw e
  | None => resolve (fulfilled ps)
  end.

(** The callback mapped over the generated videos: fetch one and convert
    it; paired with the time at which its promise settles.  A throw of
    [decodeURIComponent] comes before any answer, at time 0; a rejected
    fetch and a non-success status settle the promise when the fetch does;
    the body is read after that. *)
Definition fetchVideo (w : World) (generatedVideo : GeneratedVideo)
  : nat * Result (option string) :=
  match decodeURIComponent w (uri generatedVideo) with
  | inl e => (0, throw e)
  | inr url =>
      let (arrival, answer) := fetch w (url ++ "&key=" ++ API_KEY w) in
      match answer with
      | inl e => (arrival, throw e)
      | inr res =>
          if negb (ok res)
          then (arrival,
                throw (ErrorObj ("Failed to fetch video: "
                                 ++ numberToString (status res) ++ " "
                                 ++ statusText res)))
          else
            match blob res with
            | inl e => (arrival + blobDelay res, throw e)
            | inr b => (arrival + blobDelay res, resolve (bloblToBase64 b))
            end
      end
  end.

(** The polling loop [while (!operation.done)], run for at most [polls]
    polls from poll number [k]; [None] when the job is still not done. *)
Fixpoint awaitDone (w : World) (polls k : nat) (operation : Operation)
  : option (Result Operation) :=
  if done operation then Some (resolve operation)
  else
    match polls with
    | O => None
    | S polls' =>
        match getVideosOperation w k operation with
        | inl e => Some (throw e)
        | inr operation' => awaitDone w polls' (S k) operation'
        end
    end.

(** What follows the loop, for the operation that is done. *)
Definition collectVideos (w : World) (operation : Operation)
  : Result (list (option string)) :=
  match response operation with
  | Some resp =>
      match generatedVideos resp with
      | None => throw (ErrorObj "No videos generated")
      | Some videos =>
          if length videos =? 0 then throw (ErrorObj "No videos generated")
          else Promise_all (map (fetchVideo w) videos)
      end
  | None => throw (ErrorObj "No videos generated")
  end.

Definition generateVideoFromText (w : World) (polls : nat) (prompt : string)
    (numberOfVideos : Z) (aspectRatio : AspectRatio)
  : option (Result (list (option string))) :=
  match generateVideos w
          {| model := VEO_MODEL_NAME; prompt := prompt;
             config_numberOfVideos := numberOfVideos;
             config_aspectRatio := aspectRatio |} with
  | inl e => Some (throw e)
  | inr operation0 =>
      match awaitDone w polls 0 operation0 with
      | None => None
      | Some (inl e) => Some (throw e)
      | Some (inr operation) => Some (collectVideos w operation)
      end
  end.

(** The state of the [App] component. *)
Record State : Type := mk {
  videos : list Video.t;
  playingVideo : option Video.t;
  editingVideo : option Video.t;
  isSaving : bool;
  searchQuery : string;
  generationError : option ErrorDetails.t;
}.

Definition setVideos (f : list Video.t -> list Video.t) (s : State) : State :=
  mk (f (videos s)) (playingVideo s) (editingVideo s) (isSaving s)
     (searchQuery s) (generationError s).
Definition setPlayingVideo (v : option Video.t) (s : State) : State :=
  mk (videos s) v (editingVideo s) (isSaving s) (searchQuery s) (generationError s).
Definition setEditingVideo (v : option Video.t) (s : State) : State :=
  mk (videos s) (playingVideo s) v (isSaving s) (searchQuery s) (generationError s).
Definition setIsSaving (b : bool) (s : State) : State :=
  mk (videos s) (playingVideo s) (editingVideo s) b (searchQuery s) (generationError s).
Definition setGenerationError (e : option ErrorDetails.t) (s : State) : State :=
  mk (videos s) (playingVideo s) (editingVideo s) (isSaving s) (searchQuery s) e.

(** [handleFileChange], for the first selected file if there is one. *)
Definition handleFileChange (w : World) (file : option File) (s : State) : State :=
  match file with
  | None => s
  | Some file =>
      let videoUrl := createObjectURL w file in
      let newVideo :=
        Video.mk (randomUUID w 0) videoUrl (replaceExtension (name file))
                 "A user-uploaded video." in
      setVideos (fun currentVideos => newVideo :: currentVideos) s
  end.

(** [Array.prototype.map] with the index as second argument. *)
Fixpoint mapFrom {A B} (index : nat) (f : A -> nat -> B) (l : list A) : list B :=
  match l with
  | [] => []
  | a :: rest => f a index :: mapFrom (S index) f rest
  end.

Definition mapIndexed {A B} (f : A -> nat -> B) (l : list A) : list B :=
  mapFrom 0 f l.

(** The [catch] block: from the caught value to the banner's details. *)
Definition errorDetailsOf (error : Thrown) : ErrorDetails.t :=
  let errorDetails :=
    ErrorDetails.mk "Generation Failed"
      ["Veo 3 is only available on the Paid Tier.";
       "Please select your Cloud Project to get started."]
      api_key in
  match error with
  | ErrorObj message =>
      if includes message "No videos generated" then
        ErrorDetails.mk "Generation Failed"
          ["The model did not return any video.";
           "This could be due to your prompt. Please try a different prompt."]
          generation_failed
      else if includes message "Failed to fetch video" then
        ErrorDetails.mk "Download Failed"
          ["The generated video could not be downloaded.";
           "Please check your network connection and try again."]
          network
      else errorDetails
  | NonError _ => errorDetails
  end.

(** The videos built in the [try] block from the generated sources. *)
Definition newVideosOf (w : World) (numberOfVideos : Z)
    (baseTitle baseDescription : string) (videoObjects : list (option string))
  : list Video.t :=
  let mimeType := "video/mp4" in
  mapIndexed
    (fun videoSrc index =>
       let src := "data:" ++ mimeType ++ ";base64," ++ interpolate videoSrc in
       let title :=
         if (1 <? numberOfVideos)%Z
         then baseTitle ++ " (" ++ numberToString (Z.of_nat index + 1) ++ "/"
              ++ numberToString numberOfVideos ++ ")"
         else baseTitle in
       Video.mk (randomUUID w index) src title baseDescription)
    videoObjects.

Definition generateAndAddNewVideos (w : World) (polls : nat) (prompt : string)
    (numberOfVideos : Z) (baseTitle baseDescription : string)
    (aspectRatio : AspectRatio) (s : State) : option State :=
  let s := setGenerationError None (setIsSaving true s) in
  match generateVideoFromText w polls prompt numberOfVideos aspectRatio with
  | None => None
  | Some outcome =>
      let attempt :=
        videoObjects <- outcome ;;
        if length videoObjects =? 0
        then throw (ErrorObj "Video generation returned no data.")
        else resolve (newVideosOf w numberOfVideos baseTitle baseDescription
                        videoObjects) in
      let s :=
        match attempt with
        | inr newVideos =>
            setPlayingVideo (nth_error newVideos 0)
              (setVideos (fun currentVideos => (newVideos ++ currentVideos)%list) s)
        | inl error => setGenerationError (Some (errorDetailsOf error)) s
        end in
      Some (setIsSaving false s)
  end.

(** The prompt [handleSaveEdit] builds from the video it is given. *)
Definition promptTextOf (originalVideo : Video.t) (options : Options.t) : string :=
  let promptText := Video.description originalVideo in
  let promptText :=
    match Options.quality options with
    | Q_quality => promptText ++ LF ++ LF ++ "high quality, cinematic, 4k"
    | Q_fast => promptText
    end in
  match Options.duration options with
  | D_short => promptText ++ LF ++ LF ++ "(Short video, ~4 seconds)"
  | D_medium => promptText ++ LF ++ LF ++ "(Medium video, ~10 seconds)"
  | D_long => promptText ++ LF ++ LF ++ "(Long video, ~15 seconds)"
  end.

Definition handleSaveEdit (w : World) (polls : nat) (originalVideo : Video.t)
    (options : Options.t) (s : State) : option State :=
  let s := setEditingVideo None s in
  generateAndAddNewVideos w polls (promptTextOf originalVideo options)
    (Options.numberOfVideos options)
    ("Remix of " ++ DQUOTE ++ Video.title originalVideo ++ DQUOTE)
    (Video.description originalVideo)
    (Options.aspectRatio options) s.

Definition filteredVideos (s : State) : list Video.t :=
  filter
    (fun video =>
       includes (toLowerCase (Video.title video)) (toLowerCase (searchQuery s))
       || includes (toLowerCase (Video.description video))
                   (toLowerCase (searchQuery s)))
    (videos s).

Definition setSearchQuery (q : string) (s : State) : State :=
  mk (videos s) (playingVideo s) (editingVideo s) (isSaving s) q (generationError s).

Definition handlePlayVideo (video : Video.t) (s : State) : State :=
  setPlayingVideo (Some video) s.

Definition handleClosePlayer (s : State) : State :=
  setPlayingVideo None s.

Definition handleStartEdit (video : Video.t) (s : State) : State :=
  setEditingVideo (Some video) (setPlayingVideo None s).

Definition handleCancelEdit (s : State) : State :=
  setEditingVideo None s.

Definition handleGenerateFromSearch (w : World) (polls : nat) (prompt : string)
    (s : State) : option State :=
  match generateAndAddNewVideos w polls prompt 1
          ("Generated from: " ++ DQUOTE ++ prompt ++ DQUOTE) prompt AR_16_9 s with
  | None => None
  | Some s => Some (setSearchQuery "" s)
  end.

(** [handleSearchKeyDown], by the key of the event; the state is the one
    reached when the generation it starts has settled. *)
Definition handleSearchKeyDown (w : World) (polls : nat) (key : string)
    (s : State) : option State :=
  if String.eqb key "Enter" && negb (String.eqb (trim (searchQuery s)) "")
  then handleGenerateFromSearch w polls (searchQuery s) s
  else Some s.

(** What the component renders: the main area, and the player and the
    error dialog laid over it. *)
Inductive Main : Type :=
| SavingProgressPage
| EditPage (video : Video.t)
| VideoGrid (shown : list Video.t)
| NoResultsFound.

Record View : Type := {
  main : Main;
  player : option Video.t;
  errorModal : option ErrorDetails.t;
}.

Definition render (s : State) : View :=
  if isSaving s
  then {| main := SavingProgressPage; player := None; errorModal := None |}
  else
    {| main :=
         match editingVideo s with
         | Some video => EditPage video
         | None =>
             if 0 <? length (filteredVideos s) then VideoGrid (filteredVideos s)
             else if negb (String.eqb (searchQuery s) "") then NoResultsFound
             else VideoGrid (filteredVideos s)
         end;
       player := playingVideo s;
       errorModal := generationError s |}.

(** What the user can do, each time in the world as it then is.  An event
    that starts a generation gives the state reached when it has settled. *)
Inductive Event : Type :=
| ChooseFile (w : World) (file : option File)
| PlayVideo (video : Video.t)
| ClosePlayer
| StartEdit (video : Video.t)
| CancelEdit
| SaveEdit (w : World) (polls : nat) (originalVideo : Video.t) (options : Options.t)
| TypeSearch (query : string)
| SearchKeyDown (w : World) (polls : nat) (key : string)
| ClickGenerate (w : World) (polls : nat)
| CloseError.

Definition step (e : Event) (s : State) : option State :=
  match e with
  | ChooseFile w file => Some (handleFileChange w file s)
  | PlayVideo video => Some (handlePlayVideo video s)
  | ClosePlayer => Some (handleClosePlayer s)
  | StartEdit video => Some (handleStartEdit video s)
  | CancelEdit => Some (handleCancelEdit s)
  | SaveEdit w polls originalVideo options =>
      handleSaveEdit w polls originalVideo options s
  | TypeSearch query => Some (setSearchQuery query s)
  | SearchKeyDown w polls key => handleSearchKeyDown w polls key s
  | ClickGenerate w polls => handleGenerateFromSearch w polls (searchQuery s) s
  | CloseError => Some (setGenerationError None s)
  end.

Fixpoint run (events : list Event) (s : State) : option State :=
  match events with
  | [] => Some s
  | e :: rest =>
      match step e s with
      | None => None
      | Some s' => run rest s'
      end
  end.

End App.

(** The remix flow from the editor page: [handleSave] calls [onSave], which
    is [handleSaveEdit]. *)
Definition saveRemix (w : World) (polls : nat) (video : Video.t)
    (p : EditVideoPage.State) (s : App.State) : option App.State :=
  let (updatedVideo, options) := EditVideoPage.handleSave video p in
  App.handleSaveEdit w polls updatedVideo options s.

(** The prompt that flow sends to the generation service. *)
Definition remixPrompt (video : Video.t) (p : EditVideoPage.State) : string :=
  let (updatedVideo, options) := EditVideoPage.handleSave video p in
  App.promptTextOf updatedVideo options.

(** ** The earlier application (the second copy of the component)

    The copy without search and upload: its orchestrator always asks for
    the 16:9 ratio, and its [handleSaveEdit] holds the whole generation
    flow. *)

Module EarlierApp.

Record Options : Type := mkOptions {
  numberOfVideos : Z;
  quality : Quality;
  duration : Duration;
}.

Record State : Type := mk {
  videos : list Video.t;
  playingVideo : option Video.t;
  editingVideo : option Video.t;
  isSaving : bool;
  generationError : option ErrorDetails.t;
}.

Definition generateVideoFromText (w : World) (polls : nat) (prompt : string)
    (numberOfVideos : Z) : option (Result (list (option string))) :=
  match generateVideos w
          {| model := App.VEO_MODEL_NAME; prompt := prompt;
             config_numberOfVideos := numberOfVideos;
             config_aspectRatio := AR_16_9 |} with
  | inl e => Some (throw e)
  | inr operation0 =>
      match App.awaitDone w polls 0 operation0 with
      | None => None
      | Some (inl e) => Some (throw e)
      | Some (inr operation) => Some (App.collectVideos w operation)
      end
  end.

(** The prompt built at the head of the [try] block. *)
Definition promptTextOf (originalVideo : Video.t) (options : Options) : string :=
  let promptText := Video.description originalVideo in
  let promptText :=
    match quality options with
    | Q_quality => promptText ++ LF ++ LF ++ "high quality, cinematic, 4k"
    | Q_fast => promptText
    end in
  match duration options with
  | D_short => promptText ++ LF ++ LF ++ "(Short video, ~4 seconds)"
  | D_long => promptText ++ LF ++ LF ++ "(Long video, ~15 seconds)"
  | D_medium => promptText
  end.

(** The videos built in the [try] block from the generated sources. *)
Definition newVideosOf (w : World) (originalVideo : Video.t) (options : Options)
    (videoObjects : list (option string)) : list Video.t :=
  let mimeType := "video/mp4" in
  App.mapIndexed
    (fun videoSrc index =>
       let src := "data:" ++ mimeType ++ ";base64," ++ interpolate videoSrc in
       let title :=
         if (1 <? numberOfVideos options)%Z
         then "Remix of " ++ DQUOTE ++ Video.title originalVideo ++ DQUOTE
              ++ " (" ++ numberToString (Z.of_nat index + 1) ++ "/"
              ++ numberToString (numberOfVideos options) ++ ")"
         else "Remix of " ++ DQUOTE ++ Video.title originalVideo ++ DQUOTE in
       Video.mk (randomUUID w index) src title (Video.description originalVideo))
    videoObjects.

Definition handleSaveEdit (w : World) (polls : nat) (originalVideo : Video.t)
    (options : Options) (s : State) : option State :=
  let s := mk (videos s) (playingVideo s) None true None in
  let promptText := promptTextOf originalVideo options in
  match generateVideoFromText w polls promptText (numberOfVideos options) with
  | None => None
  | Some outcome =>
      let attempt :=
        videoObjects <- outcome ;;
        if length videoObjects =? 0
        then throw (ErrorObj "Video generation returned no data.")
        else resolve (newVideosOf w originalVideo options videoObjects) in
      let s :=
        match attempt with
        | inr newVideos =>
            mk (newVideos ++ videos s)%list (nth_error newVideos 0) (editingVideo s)
               (isSaving s) (generationError s)
        | inl error =>
            mk (videos s) (playingVideo s) (editingVideo s) (isSaving s)
               (Some (App.errorDetailsOf error))
        end in
      Some (mk (videos s) (playingVideo s) (editingVideo s) false (generationError s))
  end.

End EarlierApp.

(** ** The search filter over strings of 16-bit code units

    A string is the list of its code units.  [toLowerCase] is the
    lower-casing of the language (the case mapping of the Unicode
    character database with its special casing) on the texts made of the
    code units below 256 and the Greek letters alpha to omega, capital
    (U+0391 to U+03A9) and small (U+03B1 to U+03C9, the final sigma
    U+03C2 among them): a capital letter goes to its small form 32 places
    later, except that a capital sigma goes to the final sigma when it
    ends a word, that is, when it comes after a cased letter (case-ignorable
    characters between them skipped) and is not followed by one (likewise).
    Other code units are not covered: they are left as they are. *)

Module Wide.

Definition ustring : Type := list nat.

Record Video : Type := mkVideo {
  id : ustring;
  videoUrl : ustring;
  title : ustring;
  description : ustring;
}.

Fixpoint startsWith (p s : ustring) : bool :=
  match p, s with
  | [], _ => true
  | _ :: _, [] => false
  | a :: p', b :: s' => (a =? b) && startsWith p' s'
  end.

(** [s.includes(needle)]. *)
Fixpoint includes (s needle : ustring) : bool :=
  startsWith needle s
  || match s with
     | [] => false
     | _ :: s' => includes s' needle
     end.

(** Capital sigma, small sigma and final sigma. *)
Definition SIGMA : nat := 931.
Definition SMALL_SIGMA : nat := 963.
Definition FINAL_SIGMA : nat := 962.

Definition isUpper (c : nat) : bool :=
  ((65 <=? c) && (c <=? 90))
  || ((192 <=? c) && (c <=? 222) && negb (c =? 215))
  || ((913 <=? c) && (c <=? 937) && negb (c =? 930)).

Definition isLower (c : nat) : bool :=
  ((97 <=? c) && (c <=? 122))
  || (c =? 170) || (c =? 181) || (c =? 186)
  || ((223 <=? c) && (c <=? 255) && negb (c =? 247))
  || ((945 <=? c) && (c <=? 969)).

Definition cased (c : nat) : bool := isUpper c || isLower c.

(** Apostrophe, full stop, colon, circumflex, grave, diaeresis, soft
    hyphen, macron, acute, middle dot and cedilla. *)
Definition caseIgnorable (c : nat) : bool :=
  existsb (Nat.eqb c) [39; 46; 58; 94; 96; 168; 173; 175; 180; 183; 184].

(** A cased letter follows, case-ignorable characters skipped. *)
Fixpoint casedAhead (s : ustring) : bool :=
  match s with
  | [] => false
  | c :: s' =>
      if cased c then true
      else if caseIgnorable c then casedAhead s' else false
  end.

(** Lower-casing from inside a string; [afterCased] says that a cased
    letter came before, case-ignorable characters skipped. *)
Fixpoint lowerFrom (afterCased : bool) (s : ustring) : ustring :=
  match s with
  | [] => []
  | c :: s' =>
      (if c =? SIGMA
       then if afterCased && negb (casedAhead s') then FINAL_SIGMA else SMALL_SIGMA
       else if isUpper c then c + 32 else c)
      :: lowerFrom (if cased c then true
                    else if caseIgnorable c then afterCased else false) s'
  end.

(** [s.toLowerCase()]. *)
Definition toLowerCase (s : ustring) : ustring := lowerFrom false s.

(** [filteredVideos], by the search text and the video list. *)
Definition filteredVideos (searchQuery : ustring) (videos : list Video) : list Video :=
  filter
    (fun video =>
       includes (toLowerCase (title video)) (toLowerCase searchQuery)
       || includes (toLowerCase (description video)) (toLowerCase searchQuery))
    videos.

(** A string of code units below 256, as a string of 16-bit code units. *)
Fixpoint widen (s : string) : ustring :=
  match s with
  | EmptyString => []
  | String c s' => code c :: widen s'
  end.

Definition widenVideo (video : Video.t) : Video :=
  mkVideo (widen (Video.id video)) (widen (Video.videoUrl video))
          (widen (Video.title video)) (widen (Video.description video)).

End Wide.

(** ** Vocabulary of the statements *)

(** [needle] occurs in [s]: some characters, then [needle], then the rest. *)
Definition Contains (needle s : string) : Prop :=
  exists before after, s = before ++ needle ++ after.

(** Two characters are the same up to case: equal, or an upper-case letter
    and its lower-case form. *)
Definition sameLetter (c d : ascii) : Prop :=
  c = d
  \/ (isUpper c = true /\ code d = code c + 32)
  \/ (isUpper d = true /\ code c = code d + 32).

(** Two strings are the same up to case, character by character. *)
Inductive sameText : string -> string -> Prop :=
| sameText_nil : sameText "" ""
| sameText_cons c d s t :
    sameLetter c d -> sameText s t -> sameText (String c s) (String d t).

(** [needle] occurs in [s] case-insensitively: a piece of [s] is the same
    text as [needle] up to case. *)
Definition ContainsNoCase (needle s : string) : Prop :=
  exists before piece after,
    s = before ++ piece ++ after /\ sameText piece needle.

(** [kept] is [l] with exactly the elements that satisfy [P] kept, in the
    order and number they have in [l]. *)
Inductive Selects {A} (P : A -> Prop) : list A -> list A -> Prop :=
| Selects_nil : Selects P [] []
| Selects_keep a l kept : P a -> Selects P l kept -> Selects P (a :: l) (a :: kept)
| Selects_drop a l kept : ~ P a -> Selects P l kept -> Selects P (a :: l) kept.

(** The suffixes of the prompt, by the option or the page state they come
    from. *)
Definition qualitySuffix (q : Quality) : string :=
  match q with
  | Q_fast => ""
  | Q_quality => LF ++ LF ++ "high quality, cinematic, 4k"
  end.

Definition durationSuffix (d : Duration) : string :=
  match d with
  | D_short => LF ++ LF ++ "(Short video, ~4 seconds)"
  | D_medium => LF ++ LF ++ "(Medium video, ~10 seconds)"
  | D_long => LF ++ LF ++ "(Long video, ~15 seconds)"
  end.

Definition instructionPhrase (instruction : string) : string :=
  LF ++ LF ++ "In the highlighted area, please " ++ instruction ++ ".".

(** The order of composition in the words of the specification: the base
    description, the quality suffix, the duration suffix, and last the
    instruction phrase when the mask is active. *)
Definition promptAsSpecified (base : string) (q : Quality) (d : Duration)
    (maskActive : bool) (instruction : string) : string :=
  base ++ qualitySuffix q ++ durationSuffix d
  ++ (if maskActive then instructionPhrase instruction else "").

(** The generation request of a remix reaches a done operation within
    [polls] polls. *)
Definition Completes (w : World) (polls : nat) (prompt : string)
    (numberOfVideos : Z) (aspectRatio : AspectRatio) (operation : Operation) : Prop :=
  exists operation0,
    generateVideos w
      {| model := App.VEO_MODEL_NAME; prompt := prompt;
         config_numberOfVideos := numberOfVideos;
         config_aspectRatio := aspectRatio |} = inr operation0
    /\ App.awaitDone w polls 0 operation0 = Some (inr operation).

(** The fetch of a generated video gets the answer [res]: its URI decodes
    and the request for the decoded URL, with the key appended, is
    answered with [res]. *)
Definition Answers (w : World) (generatedVideo : GeneratedVideo)
    (res : FetchResponse) : Prop :=
  exists url arrival,
    decodeURIComponent w (uri generatedVideo) = inr url
    /\ fetch w (url ++ "&key=" ++ API_KEY w) = (arrival, inr res).

(** The fetch of a generated video succeeds with the blob [b]: it gets an
    answer with a success status, whose body is read as [b]. *)
Definition Delivers (w : World) (generatedVideo : GeneratedVideo) (b : Blob) : Prop :=
  exists res,
    Answers w generatedVideo res /\ ok res = true /\ blob res = inr b.

(** The message of the error thrown for an answer with a non-success
    status. *)
Definition fetchFailure (res : FetchResponse) : string :=
  "Failed to fetch video: " ++ numberToString (status res) ++ " " ++ statusText res.

(** The ways in which the callback for one generated video throws [e]:
    the URI does not decode, the fetch gets no answer, the answer has a
    non-success status, or the body of a successful answer cannot be
    read. *)
Definition RejectsWith (w : World) (generatedVideo : GeneratedVideo) (e : Thrown)
  : Prop :=
  decodeURIComponent w (uri generatedVideo) = inl e
  \/ (exists url arrival,
         decodeURIComponent w (uri generatedVideo) = inr url
         /\ fetch w (url ++ "&key=" ++ API_KEY w) = (arrival, inl e))
  \/ (exists res,
         Answers w generatedVideo res /\ ok res = false
         /\ e = ErrorObj (fetchFailure res))
  \/ (exists res,
         Answers w generatedVideo res /\ ok res = true /\ blob res = inl e).

(** A string is blank when it has white space only. *)
Fixpoint blank (s : string) : bool :=
  match s with
  | EmptyString => true
  | String c s' => isWhiteSpace c && blank s'
  end.

(** The outcome of the job after [n] polls, from poll number [k] on: the
    operation it then shows, or the rejection of the first poll that
    rejected. *)
Fixpoint afterPolls (w : World) (n k : nat) (operation : Operation) : Result Operation :=
  match n with
  | O => inr operation
  | S n' =>
      match getVideosOperation w k operation with
      | inl e => inl e
      | inr operation' => afterPolls w n' (S k) operation'
      end
  end.

(** An outcome at which the polling loop stops: a rejection or an operation
    that is done. *)
Definition stopsPolling (r : Result Operation) : bool :=
  match r with
  | inl _ => true
  | inr operation => done operation
  end.

(** The state of the later application without its search field, and its
    options without the aspect ratio. *)
Definition withoutSearch (s : App.State) : EarlierApp.State :=
  EarlierApp.mk (App.videos s) (App.playingVideo s) (App.editingVideo s)
    (App.isSaving s) (App.generationError s).

Definition withoutAspectRatio (options : Options.t) : EarlierApp.Options :=
  EarlierApp.mkOptions (Options.numberOfVideos options) (Options.quality options)
    (Options.duration options).

(** [s] is [stem], a dot, and an extension body. *)
Definition HasFinalExtension (s stem ext : string) : Prop :=
  s = stem ++ String "."%char ext /\ extensionBody ext = true.

(** No character of [s] is [c]. *)
Fixpoint lacks (c : ascii) (s : string) : bool :=
  match s with
  | EmptyString => true
  | String d s' => negb (Ascii.eqb d c) && lacks c s'
  end.

(** ** A concrete world

    A service that answers a request with a pending job, reports the job
    done at the third poll with the handles in [reported], and a [fetch]
    that fails with status 500 on the URLs that contain the word broken
    and succeeds on the others. *)

Module Scenario.

Definition pending : Operation := {| done := false; response := None |}.

Definition finished (reported : option (list GeneratedVideo)) : Operation :=
  {| done := true; response := Some {| generatedVideos := reported |} |}.

Definition world (reported : option (list GeneratedVideo)) : World :=
  {| API_KEY := "key";
     generateVideos := fun _ => inr pending;
     getVideosOperation :=
       fun k _ => inr (if k <? 2 then pending else finished reported);
     decodeURIComponent :=
       fun s => if includes s "%zz" then inl (ErrorObj "URI malformed") else inr s;
     fetch :=
       fun url =>
         if includes url "unreachable" then (1, inl (ErrorObj "Failed to fetch"))
         else if includes url "broken"
         then (1, inr {| ok := false; status := 500;
                         statusText := "Internal Server Error";
                         blob := inr {| readAsDataURL := "" |}; blobDelay := 0 |})
         else (2, inr {| ok := true; status := 200; statusText := "OK";
                         blob := inr {| readAsDataURL := "data:video/mp4;base64,AAAA" |};
                         blobDelay := 1 |});
     createObjectURL := fun file => "blob:" ++ name file;
     randomUUID := fun k => "uuid-" ++ numberToString (Z.of_nat k) |}.

Definition good1 : GeneratedVideo := {| uri := "https://videos.example/1?alt=media" |}.
Definition good2 : GeneratedVideo := {| uri := "https://videos.example/2?alt=media" |}.
Definition broken : GeneratedVideo := {| uri := "https://videos.example/broken?alt=media" |}.
Definition malformed : GeneratedVideo := {| uri := "https://videos.example/%zz?alt=media" |}.
Definition unreachable : GeneratedVideo :=
  {| uri := "https://unreachable.example/3?alt=media" |}.

(** The answers of that [fetch]. *)
Definition answer500 : FetchResponse :=
  {| ok := false; status := 500; statusText := "Internal Server Error";
     blob := inr {| readAsDataURL := "" |}; blobDelay := 0 |}.
Definition answer200 : FetchResponse :=
  {| ok := true; status := 200; statusText := "OK";
     blob := inr {| readAsDataURL := "data:video/mp4;base64,AAAA" |}; blobDelay := 1 |}.

(** The worlds of the examples: a job that reports two handles whose
    fetches succeed, one that reports a handle whose fetch fails, one that
    reports a single handle, and one that reports none. *)
Definition twoGood : World := world (Some [good1; good2]).
Definition oneBroken : World := world (Some [good1; broken]).
Definition oneGood : World := world (Some [good1]).
Definition nothing : World := world (Some []).

(** A job that reports a handle with a malformed URI and one whose fetch
    answers 500. *)
Definition malformedAndBroken : World := world (Some [malformed; broken]).

(** A service that rejects the request, as for a project without access. *)
Definition denied : World :=
  {| API_KEY := "key";
     generateVideos := fun _ => inl (ErrorObj "403 PERMISSION_DENIED");
     getVideosOperation := fun _ operation => inr operation;
     decodeURIComponent := decodeURIComponent twoGood;
     fetch := fetch twoGood;
     createObjectURL := createObjectURL twoGood;
     randomUUID := randomUUID twoGood |}.

Definition beach : Video.t :=
  Video.mk "v1" "https://videos.example/beach.mp4" "Beach" "A beach at dawn".

Definition gallery : App.State :=
  App.mk [beach] None None false "" None.

End Scenario.

(** ** Strings *)

Lemma append_nil_r (s : string) : s ++ "" = s.
Proof. induction s as [|c s IH]; simpl; [reflexivity | now rewrite IH]. Qed.

Lemma append_assoc (a b c : string) : (a ++ b) ++ c = a ++ (b ++ c).
Proof. induction a as [|x a IH]; simpl; [reflexivity | now rewrite IH]. Qed.

Lemma append_length (a b : string) :
  String.length (a ++ b) = String.length a + String.length b.
Proof. induction a as [|x a IH]; simpl; [reflexivity | now rewrite IH]. Qed.

Lemma startsWith_spec (p s : string) :
  startsWith p s = true <-> exists rest, s = p ++ rest.
Proof.
  revert s; induction p as [|a p IH]; intros s; simpl.
  - split; [intros _; now exists s | reflexivity].
  - destruct s as [|b s].
    + split; [discriminate | intros [rest H]; discriminate].
    + rewrite andb_true_iff, Ascii.eqb_eq, IH. split.
      * intros [-> [rest ->]]. now exists rest.
      * intros [rest H]. injection H as -> ->. split; [reflexivity | now exists rest].
Qed.

Lemma includes_spec (s needle : string) :
  includes s needle = true <-> Contains needle s.
Proof.
  unfold Contains. induction s as [|c s IH].
  - simpl. rewrite orb_false_r, startsWith_spec. split.
    + intros [rest H]. now exists "", rest.
    + intros [before [after H]]. destruct before; [now exists after | discriminate].
  - cbn [includes]. rewrite orb_true_iff, IH, startsWith_spec. split.
    + intros [[rest H] | [before [after H]]].
      * now exists "", rest.
      * exists (String c before), after. simpl. now rewrite H.
    + intros [before [after H]]. destruct before as [|x before].
      * left. now exists after.
      * right. simpl in H. injection H as _ H. now exists before, after.
Qed.

(** ** The variation counter *)

Lemma press_in_range (a : EditVideoPage.CounterAction) (p : EditVideoPage.State) :
  (1 <= EditVideoPage.numberOfVideos p <= 4)%Z ->
  (1 <= EditVideoPage.numberOfVideos (EditVideoPage.press a p) <= 4)%Z.
Proof.
  destruct a; simpl; unfold Math_min, Math_max; lia.
Qed.

Lemma pressAll_in_range (actions : list EditVideoPage.CounterAction) :
  forall p,
    (1 <= EditVideoPage.numberOfVideos p <= 4)%Z ->
    Forall (fun q => (1 <= EditVideoPage.numberOfVideos q <= 4)%Z)
           (EditVideoPage.pressAll actions p).
Proof.
  induction actions as [|a rest IH]; intros p Hp; simpl.
  - constructor; [exact Hp | constructor].
  - constructor; [exact Hp |]. apply IH, press_in_range, Hp.
Qed.

(** At the upper bound an increment changes nothing, at the lower bound a
    decrement changes nothing. *)
Lemma increment_saturates (p : EditVideoPage.State) :
  EditVideoPage.numberOfVideos p = 4%Z ->
  EditVideoPage.numberOfVideos (EditVideoPage.incrementVideos p) = 4%Z.
Proof. simpl. unfold Math_min. lia. Qed.

Lemma decrement_saturates (p : EditVideoPage.State) :
  EditVideoPage.numberOfVideos p = 1%Z ->
  EditVideoPage.numberOfVideos (EditVideoPage.decrementVideos p) = 1%Z.
Proof. simpl. unfold Math_max. lia. Qed.

(** C7.  Starting from the initial value 1, every state the page goes
    through under any finite sequence of increment and decrement presses
    has its variation count in the closed interval from 1 to 4; an
    increment never gives more than 4 and a decrement never less than 1. *)
Theorem variation_count_clamped (actions : list EditVideoPage.CounterAction) :
  Forall (fun q => (1 <= EditVideoPage.numberOfVideos q <= 4)%Z)
         (EditVideoPage.pressAll actions EditVideoPage.initial)
  /\ (forall p, (EditVideoPage.numberOfVideos (EditVideoPage.incrementVideos p) <= 4)%Z)
  /\ (forall p, (1 <= EditVideoPage.numberOfVideos (EditVideoPage.decrementVideos p))%Z).
Proof.
  split; [| split].
  - apply pressAll_in_range. simpl. lia.
  - intros p. simpl. unfold Math_min. lia.
  - intros p. simpl. unfold Math_max. lia.
Qed.

(** ** Error classification *)

Lemma not_includes (s needle : string) :
  includes s needle = false <-> ~ Contains needle s.
Proof.
  rewrite <- includes_spec. destruct (includes s needle); split; intros H.
  - discriminate.
  - now destruct H.
  - discriminate.
  - reflexivity.
Qed.

(** C4.  The banner depends on the caught value only.  For an [Error]
    whose message contains "No videos generated" it is the
    generation-failed banner; otherwise, when the message contains "Failed
    to fetch video", the network banner; for every other [Error] and for
    every value that is not an [Error], the credential banner with its
    fixed text.  The type is never [unknown]. *)
Theorem error_classification (error : Thrown) :
  match error with
  | ErrorObj message =>
      (Contains "No videos generated" message
       /\ App.errorDetailsOf error =
          ErrorDetails.mk "Generation Failed"
            ["The model did not return any video.";
             "This could be due to your prompt. Please try a different prompt."]
            generation_failed)
      \/ (~ Contains "No videos generated" message
          /\ Contains "Failed to fetch video" message
          /\ App.errorDetailsOf error =
             ErrorDetails.mk "Download Failed"
               ["The generated video could not be downloaded.";
                "Please check your network connection and try again."]
               network)
      \/ (~ Contains "No videos generated" message
          /\ ~ Contains "Failed to fetch video" message
          /\ App.errorDetailsOf error =
             ErrorDetails.mk "Generation Failed"
               ["Veo 3 is only available on the Paid Tier.";
                "Please select your Cloud Project to get started."]
               api_key)
  | NonError _ =>
      App.errorDetailsOf error =
      ErrorDetails.mk "Generation Failed"
        ["Veo 3 is only available on the Paid Tier.";
         "Please select your Cloud Project to get started."]
        api_key
  end
  /\ ErrorDetails.type (App.errorDetailsOf error) <> unknown.
Proof.
  destruct error as [message | value]; cbn [App.errorDetailsOf].
  - destruct (includes message "No videos generated") eqn:E1.
    + split; [left; split; [now apply includes_spec | reflexivity] | discriminate].
    + apply not_includes in E1.
      destruct (includes message "Failed to fetch video") eqn:E2.
      * split; [right; left | discriminate].
        split; [exact E1 | split; [now apply includes_spec | reflexivity]].
      * apply not_includes in E2.
        split; [right; right | discriminate].
        split; [exact E1 | split; [exact E2 | reflexivity]].
  - split; [reflexivity | discriminate].
Qed.

(** ** Search *)

Lemma code_inj (c d : ascii) : code c = code d -> c = d.
Proof.
  unfold code. intros H.
  rewrite <- (ascii_nat_embedding c), <- (ascii_nat_embedding d). now rewrite H.
Qed.

Lemma code_bounded (c : ascii) : code c < 256.
Proof. apply nat_ascii_bounded. Qed.

Lemma isUpper_spec (c : ascii) :
  isUpper c = true <->
  (65 <= code c <= 90) \/ (192 <= code c <= 222 /\ code c <> 215).
Proof.
  unfold isUpper.
  rewrite orb_true_iff, !andb_true_iff, negb_true_iff, !Nat.leb_le, Nat.eqb_neq.
  tauto.
Qed.

Lemma code_lowerChar (c : ascii) :
  code (lowerChar c) = if isUpper c then code c + 32 else code c.
Proof.
  unfold lowerChar. destruct (isUpper c) eqn:U; [| reflexivity].
  apply isUpper_spec in U. unfold code at 1. apply nat_ascii_embedding. lia.
Qed.

Lemma lowerChar_sameLetter (c d : ascii) :
  lowerChar c = lowerChar d <-> sameLetter c d.
Proof.
  unfold sameLetter. split.
  - intros H. apply (f_equal code) in H. rewrite !code_lowerChar in H.
    destruct (isUpper c) eqn:Uc, (isUpper d) eqn:Ud.
    + left. apply code_inj. lia.
    + right; left. split; [reflexivity | lia].
    + right; right. split; [reflexivity | lia].
    + left. now apply code_inj.
  - intros [-> | [[Uc H] | [Ud H]]]; [reflexivity | |];
      apply code_inj; rewrite !code_lowerChar.
    + rewrite Uc. destruct (isUpper d) eqn:Ud; [| lia].
      apply isUpper_spec in Uc, Ud. lia.
    + rewrite Ud. destruct (isUpper c) eqn:Uc; [| lia].
      apply isUpper_spec in Uc, Ud. lia.
Qed.

Lemma toLowerCase_sameText (a b : string) :
  toLowerCase a = toLowerCase b <-> sameText a b.
Proof.
  split.
  - revert b; induction a as [|c a IH]; intros [|d b] H; simpl in H;
      try discriminate.
    + constructor.
    + injection H as Hc Hs. constructor; [now apply lowerChar_sameLetter | now apply IH].
  - induction 1 as [|c d s t Hc _ IH]; simpl; [reflexivity |].
    apply lowerChar_sameLetter in Hc. now rewrite Hc, IH.
Qed.

Lemma toLowerCase_app (a b : string) :
  toLowerCase (a ++ b) = toLowerCase a ++ toLowerCase b.
Proof. induction a as [|c a IH]; simpl; [reflexivity | now rewrite IH]. Qed.

Lemma toLowerCase_split (x y : string) :
  forall s, toLowerCase s = x ++ y ->
            exists a b, s = a ++ b /\ toLowerCase a = x /\ toLowerCase b = y.
Proof.
  induction x as [|c x IH]; intros s H.
  - exists "", s. now repeat split.
  - destruct s as [|d s]; [discriminate |]. simpl in H. injection H as Hc Hs.
    destruct (IH _ Hs) as [a [b [-> [Ha Hb]]]].
    exists (String d a), b. simpl. now rewrite Hc, Ha.
Qed.

Lemma includes_toLowerCase (s query : string) :
  includes (toLowerCase s) (toLowerCase query) = true <-> ContainsNoCase query s.
Proof.
  rewrite includes_spec. unfold Contains, ContainsNoCase. split.
  - intros [x [y H]].
    destruct (toLowerCase_split _ _ _ H) as [before [rest [-> [_ Hrest]]]].
    destruct (toLowerCase_split _ _ _ Hrest) as [piece [after [-> [Hpiece _]]]].
    exists before, piece, after. split; [reflexivity | now apply toLowerCase_sameText].
  - intros [before [piece [after [-> Hsame]]]].
    apply toLowerCase_sameText in Hsame.
    exists (toLowerCase before), (toLowerCase after).
    now rewrite !toLowerCase_app, Hsame.
Qed.

Lemma filter_Selects {A} (keep : A -> bool) (P : A -> Prop) (l : list A) :
  (forall a, keep a = true <-> P a) -> Selects P l (filter keep l).
Proof.
  intros Hkeep. induction l as [|a l IH]; simpl; [constructor |].
  destruct (keep a) eqn:E.
  - apply Selects_keep; [now apply Hkeep | exact IH].
  - apply Selects_drop; [| exact IH]. intros HP. apply Hkeep in HP. congruence.
Qed.

Lemma filter_true {A} (keep : A -> bool) (l : list A) :
  (forall a, keep a = true) -> filter keep l = l.
Proof.
  intros H. induction l as [|a l IH]; simpl; [reflexivity |]. now rewrite H, IH.
Qed.

(** What [Selects] pins down: membership in the kept list. *)
Lemma Selects_In {A} (P : A -> Prop) (l kept : list A) :
  Selects P l kept -> forall a, In a kept <-> In a l /\ P a.
Proof.
  induction 1 as [| a l kept Ha _ IH | a l kept Ha _ IH]; intros b; simpl.
  - tauto.
  - rewrite IH. split; [intros [-> | [? ?]]; tauto | intros [[-> | ?] ?]; tauto].
  - rewrite IH. split; [tauto | intros [[-> | ?] ?]; tauto].
Qed.

Lemma code_eqb (a b : ascii) : (code a =? code b) = Ascii.eqb a b.
Proof.
  destruct (Ascii.eqb_spec a b) as [-> | Hne].
  - apply Nat.eqb_refl.
  - apply Nat.eqb_neq. intros H. now apply Hne, code_inj.
Qed.

Lemma widen_startsWith (p s : string) :
  Wide.startsWith (Wide.widen p) (Wide.widen s) = startsWith p s.
Proof.
  revert s; induction p as [|a p IH]; intros [|b s]; cbn; try reflexivity.
  now rewrite code_eqb, IH.
Qed.

Lemma widen_includes (s needle : string) :
  Wide.includes (Wide.widen s) (Wide.widen needle) = includes s needle.
Proof.
  induction s as [|c s IH].
  - cbn [Wide.widen Wide.includes includes].
    now rewrite <- (widen_startsWith needle "").
  - cbn [Wide.widen Wide.includes includes].
    now rewrite <- IH, <- (widen_startsWith needle (String c s)).
Qed.

Lemma widen_isUpper (c : ascii) : Wide.isUpper (code c) = isUpper c.
Proof.
  unfold Wide.isUpper, isUpper. cbn zeta.
  pose proof (code_bounded c) as Hc.
  destruct (Nat.leb_spec 913 (code c)) as [H | H]; [lia |].
  cbn [andb]. now rewrite orb_false_r.
Qed.

(** On code units below 256 the lower-casing over 16-bit code units is the
    one of the 8-bit strings, whatever came before. *)
Lemma widen_lowerFrom (s : string) :
  forall afterCased,
    Wide.lowerFrom afterCased (Wide.widen s) = Wide.widen (toLowerCase s).
Proof.
  induction s as [|c s IH]; intros afterCased; [reflexivity |].
  cbn [Wide.widen Wide.lowerFrom toLowerCase]. rewrite IH. f_equal.
  pose proof (code_bounded c) as Hc.
  destruct (Nat.eqb_spec (code c) Wide.SIGMA) as [H | _];
    [unfold Wide.SIGMA in H; lia |].
  now rewrite widen_isUpper, code_lowerChar.
Qed.

Lemma widen_toLowerCase (s : string) :
  Wide.toLowerCase (Wide.widen s) = Wide.widen (toLowerCase s).
Proof. apply widen_lowerFrom. Qed.

Lemma filter_map_commute {A B} (f : A -> B) (keep : A -> bool) (keep' : B -> bool)
    (l : list A) :
  (forall a, keep' (f a) = keep a) ->
  filter keep' (map f l) = map f (filter keep l).
Proof.
  intros H. induction l as [|a l IH]; cbn; [reflexivity |].
  rewrite H. destruct (keep a); cbn; now rewrite IH.
Qed.

(** C8.  For every search string and every video list of texts in the
    8-bit range, the visible list is the video list with exactly those
    records kept whose title or description contains the search string
    case-insensitively, in their order; with the empty search string it
    is the whole list; and it is the list the filter over strings of
    16-bit code units gives for these texts. *)
Theorem filteredVideos_exact (s : App.State) :
  Selects
    (fun video =>
       ContainsNoCase (App.searchQuery s) (Video.title video)
       \/ ContainsNoCase (App.searchQuery s) (Video.description video))
    (App.videos s) (App.filteredVideos s)
  /\ App.filteredVideos
       (App.mk (App.videos s) (App.playingVideo s) (App.editingVideo s)
               (App.isSaving s) "" (App.generationError s))
     = App.videos s
  /\ Wide.filteredVideos (Wide.widen (App.searchQuery s))
       (map Wide.widenVideo (App.videos s))
     = map Wide.widenVideo (App.filteredVideos s).
Proof.
  split; [| split].
  - unfold App.filteredVideos. apply filter_Selects. intros video.
    now rewrite orb_true_iff, !includes_toLowerCase.
  - unfold App.filteredVideos. cbn [App.videos App.searchQuery].
    apply filter_true. intros video. destruct (toLowerCase (Video.title video)); reflexivity.
  - unfold Wide.filteredVideos, App.filteredVideos. apply filter_map_commute.
    intros video. cbn [Wide.widenVideo Wide.title Wide.description].
    now rewrite !widen_toLowerCase, !widen_includes.
Qed.

(** Beyond the 8-bit range: a video titled with a capital alpha and a
    capital sigma, searched with a capital sigma.  The title contains the
    search text as it is, but lower-casing makes the sigma of the title a
    final sigma and the one of the search text a small sigma, so the video
    is not in the visible list. *)
Lemma final_sigma_hides_title :
  (exists before after,
      [913; 931] = (before ++ [931] ++ after)%list)
  /\ Wide.toLowerCase [913; 931] = [945; 962]
  /\ Wide.toLowerCase [931] = [963]
  /\ Wide.filteredVideos [931]
       [Wide.mkVideo (Wide.widen "v1") (Wide.widen "blob:1") [913; 931]
                     (Wide.widen "Two Greek letters")]
     = [].
Proof.
  split; [exists [913], []; reflexivity |]. repeat split.
Qed.

(** ** The editor's save *)

Lemma trimStart_blank (s : string) : blank s = true -> trimStart s = "".
Proof.
  induction s as [|c s IH]; simpl; [reflexivity |].
  destruct (isWhiteSpace c); simpl; [exact IH | discriminate].
Qed.

Lemma trimEnd_head (c : ascii) (s : string) :
  isWhiteSpace c = false -> trimEnd (String c s) <> "".
Proof.
  intros Hc. simpl. destruct (trimEnd s); [rewrite Hc |]; discriminate.
Qed.

Lemma trim_empty_iff_blank (s : string) : trim s = "" <-> blank s = true.
Proof.
  unfold trim. induction s as [|c s IH]; simpl; [tauto |].
  destruct (isWhiteSpace c) eqn:Hc; simpl.
  - exact IH.
  - split; [| discriminate]. intros H. exfalso. revert H.
    change (trimEnd (String c s) <> ""). now apply trimEnd_head.
Qed.

Lemma trim_eqb_blank (s : string) : String.eqb (trim s) "" = blank s.
Proof.
  destruct (blank s) eqn:B.
  - apply String.eqb_eq, trim_empty_iff_blank, B.
  - apply String.eqb_neq. intros H. apply trim_empty_iff_blank in H. congruence.
Qed.

Lemma handleSave_ignores_drawing (video : Video.t) (p : EditVideoPage.State)
    (drawn : VideoMaskEditor.State) :
  EditVideoPage.handleSave video
    (EditVideoPage.mk (EditVideoPage.editPrompt p) (EditVideoPage.isMaskActive p)
       (EditVideoPage.numberOfVideos p) (EditVideoPage.quality p)
       (EditVideoPage.duration p) (EditVideoPage.aspectRatio p) drawn)
  = EditVideoPage.handleSave video p.
Proof. reflexivity. Qed.

(** The page's mask flag follows the editor's: after any pointer and clear
    events it says whether there is a mask. *)
Lemma mask_flag_in_sync (events : list VideoMaskEditor.Event) :
  forall p,
    EditVideoPage.isMaskActive p = VideoMaskEditor.hasMask (EditVideoPage.maskEditor p) ->
    let p' := EditVideoPage.onMaskEvents events p in
    EditVideoPage.isMaskActive p' = VideoMaskEditor.hasMask (EditVideoPage.maskEditor p').
Proof.
  induction events as [|e rest IH]; intros p Hp; [exact Hp |].
  cbn zeta. cbn [EditVideoPage.onMaskEvents]. apply IH.
  destruct p as [text active n q d a [drawing mask marks]].
  cbn in Hp. subst active.
  destruct e, drawing, mask; reflexivity.
Qed.

(** C6.  On save the video keeps its id, URL and title, and the options
    are those of the page.  The description is the original one followed
    by the instruction phrase exactly when the mask is active and the
    instruction is not blank; otherwise, in particular whenever the mask is
    not active, it is the original description.  Neither the saved video
    and options nor the remix they start depend on what was drawn. *)
Theorem mask_only_gates_instruction (video : Video.t) (p : EditVideoPage.State) :
  let saved := fst (EditVideoPage.handleSave video p) in
  let options := snd (EditVideoPage.handleSave video p) in
  Video.id saved = Video.id video
  /\ Video.videoUrl saved = Video.videoUrl video
  /\ Video.title saved = Video.title video
  /\ options = Options.mk (EditVideoPage.numberOfVideos p) (EditVideoPage.quality p)
                          (EditVideoPage.duration p) (EditVideoPage.aspectRatio p)
  /\ ((EditVideoPage.isMaskActive p = true
       /\ blank (EditVideoPage.editPrompt p) = false
       /\ Video.description saved =
          Video.description video ++ LF ++ LF
          ++ "In the highlighted area, please " ++ EditVideoPage.editPrompt p ++ ".")
      \/ ((EditVideoPage.isMaskActive p = false
           \/ blank (EditVideoPage.editPrompt p) = true)
          /\ Video.description saved = Video.description video))
  /\ (forall drawn : VideoMaskEditor.State,
        let p' := EditVideoPage.mk (EditVideoPage.editPrompt p)
                    (EditVideoPage.isMaskActive p) (EditVideoPage.numberOfVideos p)
                    (EditVideoPage.quality p) (EditVideoPage.duration p)
                    (EditVideoPage.aspectRatio p) drawn in
        EditVideoPage.handleSave video p' = EditVideoPage.handleSave video p
        /\ forall w polls s, saveRemix w polls video p' s = saveRemix w polls video p s).
Proof.
  cbn zeta. repeat (split; [reflexivity |]). split.
  - unfold EditVideoPage.handleSave. cbn [fst Video.description].
    rewrite trim_eqb_blank.
    destruct (EditVideoPage.isMaskActive p), (blank (EditVideoPage.editPrompt p));
      cbn [andb negb]; auto.
  - intros drawn. split; [apply handleSave_ignores_drawing |].
    intros w polls s. unfold saveRemix. now rewrite handleSave_ignores_drawing.
Qed.

(** ** Upload *)

Lemma noSlashNoDot_dot (a b : string) : noSlashNoDot (a ++ String "."%char b) = false.
Proof.
  induction a as [|c a IH]; simpl.
  - reflexivity.
  - rewrite IH. now rewrite andb_false_r.
Qed.

Lemma extensionBody_dot (a b : string) : extensionBody (a ++ String "."%char b) = false.
Proof.
  destruct a as [|c a]; [reflexivity |].
  change (noSlashNoDot (String c a ++ String "."%char b) = false).
  apply noSlashNoDot_dot.
Qed.

(** A name that ends in a dot and an extension loses exactly that final
    extension. *)
Lemma replaceExtension_strips (stem ext : string) :
  extensionBody ext = true ->
  replaceExtension (stem ++ String "."%char ext) = stem.
Proof.
  intros Hext. induction stem as [|c stem IH]; simpl.
  - now rewrite Hext.
  - rewrite extensionBody_dot, andb_false_r. now rewrite IH.
Qed.

(** A name without a dot is kept as it is. *)
Lemma replaceExtension_no_dot (s : string) :
  includes s "." = false -> replaceExtension s = s.
Proof.
  induction s as [|c s IH]; [reflexivity |].
  cbn [includes startsWith replaceExtension].
  rewrite (Ascii.eqb_sym "."%char c).
  destruct (Ascii.eqb c "."%char) eqn:E.
  - destruct s; simpl; discriminate.
  - cbn [andb orb]. intros H. now rewrite IH.
Qed.

(** C10.  Uploading the file named clip.mov puts one new record in front
    of the gallery list: its title is clip, its description is the fixed
    upload text, its URL is the object URL of the file; the records that
    were there follow unchanged and nothing else of the state changes. *)
Theorem upload_clip_mov (w : World) (s : App.State) :
  let file := {| name := "clip.mov" |} in
  let newVideo :=
    Video.mk (randomUUID w 0) (createObjectURL w file) "clip"
             "A user-uploaded video." in
  App.handleFileChange w (Some file) s
  = App.mk (newVideo :: App.videos s) (App.playingVideo s) (App.editingVideo s)
           (App.isSaving s) (App.searchQuery s) (App.generationError s)
  /\ length (App.videos (App.handleFileChange w (Some file) s))
     = S (length (App.videos s))
  /\ hd_error (App.videos (App.handleFileChange w (Some file) s)) = Some newVideo
  /\ tl (App.videos (App.handleFileChange w (Some file) s)) = App.videos s
  /\ replaceExtension "clip.mov" = "clip".
Proof.
  cbn zeta. repeat split.
Qed.

(** ** Prompt composition *)

(** The remix flow hands the composed prompt to the handler that sends it
    to the service, with the count, the title and the description. *)
Lemma saveRemix_prompt (w : World) (polls : nat) (video : Video.t)
    (p : EditVideoPage.State) (s : App.State) :
  saveRemix w polls video p s
  = App.generateAndAddNewVideos w polls (remixPrompt video p)
      (EditVideoPage.numberOfVideos p)
      ("Remix of " ++ DQUOTE ++ Video.title video ++ DQUOTE)
      (Video.description (fst (EditVideoPage.handleSave video p)))
      (EditVideoPage.aspectRatio p) (App.setEditingVideo None s).
Proof. reflexivity. Qed.

(** C1.  The prompt of a remix is a function of the base description, the
    quality, the duration, the mask flag and the instruction: the base
    description, then the instruction phrase when the mask is active and
    the instruction is not blank, then the quality suffix (nothing for
    fast), then the duration suffix, which is one of three fixed phrases,
    one for each tier. *)
Theorem prompt_composition (video : Video.t) (p : EditVideoPage.State) :
  remixPrompt video p
  = Video.description video
    ++ (if EditVideoPage.isMaskActive p && negb (blank (EditVideoPage.editPrompt p))
        then instructionPhrase (EditVideoPage.editPrompt p) else "")
    ++ qualitySuffix (EditVideoPage.quality p)
    ++ durationSuffix (EditVideoPage.duration p).
Proof.
  unfold remixPrompt, EditVideoPage.handleSave, App.promptTextOf.
  cbn [Video.description Options.quality Options.duration].
  rewrite trim_eqb_blank.
  destruct (EditVideoPage.isMaskActive p && negb (blank (EditVideoPage.editPrompt p)));
    destruct (EditVideoPage.quality p), (EditVideoPage.duration p);
    unfold qualitySuffix, durationSuffix, instructionPhrase;
    cbn [append]; rewrite ?append_assoc, ?append_nil_r; reflexivity.
Qed.

(** With an active mask, the instruction "add a cat", high quality and the
    short duration, the instruction phrase comes before the two suffixes,
    not after them. *)
Lemma prompt_order_counterexample :
  remixPrompt
    (Video.mk "v1" "blob:1" "Beach" "A beach at dawn")
    (EditVideoPage.mk "add a cat" true 1%Z Q_quality D_short AR_16_9
                      VideoMaskEditor.initial)
  <> promptAsSpecified "A beach at dawn" Q_quality D_short true "add a cat".
Proof. vm_compute. discriminate. Qed.

(** ** The join of the batch *)

Lemma firstRejection_In {A} (ps : list (nat * Result A)) (t : nat) (e : Thrown) :
  App.firstRejection ps = Some (t, e) -> In (t, inl e) ps.
Proof.
  revert t e; induction ps as [|[u [x | a]] ps IH]; intros t e; simpl.
  - discriminate.
  - destruct (App.firstRejection ps) as [[t' e'] |].
    + destruct (t' <? u); intros H; injection H as <- <-; auto.
    + intros H; injection H as <- <-; auto.
  - auto.
Qed.

Lemma firstRejection_None {A} (ps : list (nat * Result A)) :
  App.firstRejection ps = None -> map snd ps = map inr (App.fulfilled ps).
Proof.
  induction ps as [|[u [x | a]] ps IH]; simpl.
  - reflexivity.
  - destruct (App.firstRejection ps) as [[t' e'] |]; [destruct (t' <? u) |]; discriminate.
  - intros H. now rewrite IH.
Qed.

Lemma firstRejection_Some {A} (ps : list (nat * Result A)) (t : nat) (e : Thrown) :
  In (t, inl e) ps -> exists t' e', App.firstRejection ps = Some (t', e').
Proof.
  induction ps as [|[u [x | a]] ps IH]; simpl.
  - tauto.
  - intros _. destruct (App.firstRejection ps) as [[t' e'] |];
      [destruct (t' <? u) |]; eauto.
  - intros [H | H]; [discriminate | auto].
Qed.

(** The join rejects as soon as one promise does, with the rejection of
    one of them. *)
Lemma Promise_all_rejects {A} (ps : list (nat * Result A)) (t : nat) (e : Thrown) :
  In (t, inl e) ps ->
  exists t' e', App.Promise_all ps = inl e' /\ In (t', inl e') ps.
Proof.
  intros Hin. destruct (firstRejection_Some _ _ _ Hin) as [t' [e' H]].
  exists t', e'. unfold App.Promise_all. rewrite H.
  split; [reflexivity | now apply firstRejection_In].
Qed.

(** The join fulfils only when every promise does, with one value for each,
    in order. *)
Lemma Promise_all_fulfils {A} (ps : list (nat * Result A)) (values : list A) :
  App.Promise_all ps = inr values -> map snd ps = map inr values.
Proof.
  unfold App.Promise_all.
  destruct (App.firstRejection ps) as [[t e] |] eqn:E; [discriminate |].
  intros H. injection H as <-. now apply firstRejection_None.
Qed.

Lemma map_inr_inj {E A} (l l' : list A) :
  map (@inr E A) l = map (@inr E A) l' -> l = l'.
Proof.
  revert l'; induction l as [|a l IH]; intros [|b l'] H; try discriminate.
  - reflexivity.
  - simpl in H. injection H as -> H. f_equal. now apply IH.
Qed.

Lemma Promise_all_of_fulfilled {A} (ps : list (nat * Result A)) (values : list A) :
  map snd ps = map inr values -> App.Promise_all ps = inr values.
Proof.
  intros H. unfold App.Promise_all.
  destruct (App.firstRejection ps) as [[t e] |] eqn:E.
  - apply firstRejection_In in E.
    assert (Hin : In (inl e) (map snd ps))
      by (apply in_map_iff; exists (t, inl e); auto).
    rewrite H in Hin. apply in_map_iff in Hin. destruct Hin as [a [Ha _]].
    discriminate.
  - apply firstRejection_None in E. rewrite H in E.
    apply map_inr_inj in E. unfold resolve. now rewrite E.
Qed.

(** ** The generation orchestrator *)

(** A job that is done within some number of polls is done, with the same
    operation, within any larger number. *)
Lemma awaitDone_more_polls (w : World) (extra polls : nat) :
  forall k operation outcome,
    App.awaitDone w polls k operation = Some outcome ->
    App.awaitDone w (polls + extra) k operation = Some outcome.
Proof.
  induction polls as [|polls IH]; intros k operation outcome; simpl.
  - destruct (done operation) eqn:D; [| discriminate].
    intros H. destruct extra; simpl; now rewrite D.
  - destruct (done operation); [tauto |].
    destruct (getVideosOperation w k operation); [tauto | apply IH].
Qed.

Lemma awaitDone_done (w : World) (polls : nat) :
  forall k operation final,
    App.awaitDone w polls k operation = Some (inr final) -> done final = true.
Proof.
  induction polls as [|polls IH]; intros k operation final; simpl.
  - destruct (done operation) eqn:D; [| discriminate].
    intros H. injection H as <-. exact D.
  - destruct (done operation) eqn:D.
    + intros H. injection H as <-. exact D.
    + destruct (getVideosOperation w k operation); [discriminate | apply IH].
Qed.

Lemma generateVideoFromText_completes (w : World) (polls : nat) (prompt : string)
    (n : Z) (ar : AspectRatio) (operation : Operation) :
  Completes w polls prompt n ar operation ->
  App.generateVideoFromText w polls prompt n ar = Some (App.collectVideos w operation).
Proof.
  intros [operation0 [H0 H1]]. unfold App.generateVideoFromText.
  now rewrite H0, H1.
Qed.

Lemma generateVideoFromText_returns (w : World) (polls : nat) (prompt : string)
    (n : Z) (ar : AspectRatio) (sources : list (option string)) :
  App.generateVideoFromText w polls prompt n ar = Some (inr sources) ->
  exists operation,
    Completes w polls prompt n ar operation
    /\ App.collectVideos w operation = inr sources.
Proof.
  unfold App.generateVideoFromText, Completes.
  destruct (generateVideos w _) as [e | operation0] eqn:H0; [discriminate |].
  destruct (App.awaitDone w polls 0 operation0) as [[e | operation] |] eqn:H1;
    try discriminate.
  intros H. injection H as H. exists operation. split; [| exact H].
  exists operation0. now split.
Qed.


Lemma fetchVideo_delivers (w : World) (generatedVideo : GeneratedVideo) (b : Blob) :
  Delivers w generatedVideo b ->
  snd (App.fetchVideo w generatedVideo) = inr (App.bloblToBase64 b).
Proof.
  intros [res [[url [t [Hd Hf]]] [Hok Hb]]].
  unfold App.fetchVideo. now rewrite Hd, Hf, Hok, Hb.
Qed.

Lemma fetchVideo_status_failure (w : World) (generatedVideo : GeneratedVideo)
    (res : FetchResponse) :
  Answers w generatedVideo res -> ok res = false ->
  snd (App.fetchVideo w generatedVideo) = inl (ErrorObj (fetchFailure res)).
Proof.
  intros [url [t [Hd Hf]]] Hok.
  unfold App.fetchVideo. now rewrite Hd, Hf, Hok.
Qed.

(** The outcome of the callback, read back: a source comes from a
    delivered blob, and a rejection is one of the four. *)
Lemma fetchVideo_outcome (w : World) (generatedVideo : GeneratedVideo) :
  match snd (App.fetchVideo w generatedVideo) with
  | inr source =>
      exists b, Delivers w generatedVideo b /\ source = App.bloblToBase64 b
  | inl e => RejectsWith w generatedVideo e
  end.
Proof.
  unfold App.fetchVideo, RejectsWith, Delivers, Answers.
  destruct (decodeURIComponent w (uri generatedVideo)) as [e | url] eqn:Hd;
    [now left |].
  destruct (fetch w (url ++ "&key=" ++ API_KEY w)) as [t [e | res]] eqn:Hf.
  - right; left. now exists url, t.
  - destruct (ok res) eqn:Hok; cbn [negb].
    + destruct (blob res) as [e | b] eqn:Hb; cbn [snd].
      * right; right; right. exists res. split; [now exists url, t | now split].
      * exists b. split; [| reflexivity].
        exists res. split; [now exists url, t | now split].
    + right; right; left. exists res. split; [now exists url, t | now split].
Qed.

(** Every rejection in a batch is that of one of its items. *)
Lemma fetchVideo_rejection (w : World) (videos : list GeneratedVideo)
    (t : nat) (e : Thrown) :
  In (t, inl e) (map (App.fetchVideo w) videos) ->
  exists culprit, In culprit videos /\ RejectsWith w culprit e.
Proof.
  intros H. apply in_map_iff in H. destruct H as [culprit [H Hin]].
  exists culprit. split; [exact Hin |].
  pose proof (fetchVideo_outcome w culprit) as Hout.
  now rewrite H in Hout.
Qed.

Lemma fetchVideo_fails (w : World) (videos : list GeneratedVideo)
    (failing : GeneratedVideo) (e : Thrown) :
  In failing videos -> snd (App.fetchVideo w failing) = inl e ->
  exists t, In (t, inl e) (map (App.fetchVideo w) videos).
Proof.
  intros Hin Hfail. exists (fst (App.fetchVideo w failing)).
  apply in_map_iff. exists failing. split; [| exact Hin].
  rewrite (surjective_pairing (App.fetchVideo w failing)) at 1. now rewrite Hfail.
Qed.

(** The batch of a done operation, when every fetch delivers its blob. *)
Lemma batch_all_fetched (w : World) (videos : list GeneratedVideo)
    (blobs : list Blob) :
  Forall2 (Delivers w) videos blobs ->
  App.Promise_all (map (App.fetchVideo w) videos)
  = inr (map App.bloblToBase64 blobs).
Proof.
  intros Hall. apply Promise_all_of_fulfilled. rewrite !map_map.
  induction Hall as [|generatedVideo b videos blobs Hb _ IH]; cbn [map];
    [reflexivity |].
  now rewrite (fetchVideo_delivers Hb), IH.
Qed.

(** What a fulfilled batch is made of. *)
Lemma batch_fulfilled (w : World) (videos : list GeneratedVideo)
    (sources : list (option string)) :
  App.Promise_all (map (App.fetchVideo w) videos) = inr sources ->
  exists blobs,
    Forall2 (Delivers w) videos blobs /\ sources = map App.bloblToBase64 blobs.
Proof.
  intros H. apply Promise_all_fulfils in H. rewrite map_map in H.
  revert sources H. induction videos as [|generatedVideo videos IH];
    intros [|source sources] H; try discriminate.
  - exists []. split; [constructor | reflexivity].
  - cbn [map] in H.
    pose proof (fetchVideo_outcome w generatedVideo) as Hout.
    destruct (snd (App.fetchVideo w generatedVideo)) as [e | source'];
      [discriminate |].
    injection H as <- Htail. destruct Hout as [b [Hb ->]].
    destruct (IH _ Htail) as [blobs [Hall ->]].
    exists (b :: blobs). split; [now constructor | reflexivity].
Qed.

Lemma collectVideos_nothing (w : World) (operation : Operation) :
  response operation = None
  \/ (exists resp, response operation = Some resp
                   /\ (generatedVideos resp = None \/ generatedVideos resp = Some [])) ->
  App.collectVideos w operation = inl (ErrorObj "No videos generated").
Proof.
  unfold App.collectVideos.
  intros [-> | [resp [-> [-> | ->]]]]; reflexivity.
Qed.

Lemma collectVideos_batch (w : World) (operation : Operation)
    (resp : GenerateVideosResponse) (videos : list GeneratedVideo) :
  response operation = Some resp -> generatedVideos resp = Some videos ->
  videos <> [] ->
  App.collectVideos w operation = App.Promise_all (map (App.fetchVideo w) videos).
Proof.
  unfold App.collectVideos. intros -> -> Hne.
  destruct videos; [contradiction | reflexivity].
Qed.

Lemma collectVideos_returns (w : World) (operation : Operation)
    (sources : list (option string)) :
  App.collectVideos w operation = inr sources ->
  exists resp videos,
    response operation = Some resp /\ generatedVideos resp = Some videos
    /\ videos <> []
    /\ App.Promise_all (map (App.fetchVideo w) videos) = inr sources.
Proof.
  unfold App.collectVideos.
  destruct (response operation) as [resp |]; [| discriminate].
  destruct (generatedVideos resp) as [videos |] eqn:G; [| discriminate].
  destruct videos as [|v videos]; [discriminate |]. cbn [length Nat.eqb].
  intros H. exists resp, (v :: videos). repeat split; auto. discriminate.
Qed.

(** The handler, once the orchestrator has rejected: the banner is set and
    the gallery list, the playing video and the rest stay as they were. *)
Lemma generateAndAddNewVideos_rejected (w : World) (polls : nat) (prompt : string)
    (n : Z) (baseTitle baseDescription : string) (ar : AspectRatio)
    (s : App.State) (error : Thrown) :
  App.generateVideoFromText w polls prompt n ar = Some (inl error) ->
  App.generateAndAddNewVideos w polls prompt n baseTitle baseDescription ar s
  = Some (App.mk (App.videos s) (App.playingVideo s) (App.editingVideo s) false
                 (App.searchQuery s) (Some (App.errorDetailsOf error))).
Proof.
  intros H. unfold App.generateAndAddNewVideos. rewrite H. reflexivity.
Qed.

(** The handler, once the orchestrator has returned sources. *)
Lemma generateAndAddNewVideos_fulfilled (w : World) (polls : nat) (prompt : string)
    (n : Z) (baseTitle baseDescription : string) (ar : AspectRatio)
    (s : App.State) (sources : list (option string)) :
  App.generateVideoFromText w polls prompt n ar = Some (inr sources) ->
  sources <> [] ->
  let newVideos := App.newVideosOf w n baseTitle baseDescription sources in
  App.generateAndAddNewVideos w polls prompt n baseTitle baseDescription ar s
  = Some (App.mk (newVideos ++ App.videos s)%list (nth_error newVideos 0)
                 (App.editingVideo s) false (App.searchQuery s) None).
Proof.
  intros H Hne. unfold App.generateAndAddNewVideos. rewrite H.
  destruct sources; [contradiction | reflexivity].
Qed.





(** C3.  When the job of a generation request is done and its result list
    is empty or absent (no response, no list in the response, or an empty
    list), the orchestrator throws the error whose message is "No videos
    generated", and the handler shows the banner of type
    [generation_failed] and adds nothing to the gallery. *)
Theorem no_videos_generated (w : World) (polls : nat) (prompt : string)
    (n : Z) (ar : AspectRatio) (baseTitle baseDescription : string)
    (s : App.State) (operation : Operation) :
  Completes w polls prompt n ar operation ->
  (response operation = None
   \/ exists resp, response operation = Some resp
                   /\ (generatedVideos resp = None \/ generatedVideos resp = Some [])) ->
  App.generateVideoFromText w polls prompt n ar
  = Some (inl (ErrorObj "No videos generated"))
  /\ App.generateAndAddNewVideos w polls prompt n baseTitle baseDescription ar s
     = Some (App.mk (App.videos s) (App.playingVideo s) (App.editingVideo s) false
               (App.searchQuery s)
               (Some (ErrorDetails.mk "Generation Failed"
                        ["The model did not return any video.";
                         "This could be due to your prompt. Please try a different prompt."]
                        generation_failed))).
Proof.
  intros Hdone Hnothing.
  pose proof (generateVideoFromText_completes Hdone) as Hrun.
  rewrite (collectVideos_nothing w operation Hnothing) in Hrun.
  split; [exact Hrun |].
  now rewrite (generateAndAddNewVideos_rejected w polls prompt n baseTitle
                 baseDescription ar s Hrun).
Qed.

Lemma no_videos_generated_witness :
  App.generateVideoFromText Scenario.nothing 3 "A beach at dawn" 2%Z AR_16_9
  = Some (inl (ErrorObj "No videos generated"))
  /\ App.generateAndAddNewVideos Scenario.nothing 3 "A beach at dawn" 2%Z
       "Remix" "A beach at dawn" AR_16_9 Scenario.gallery
     = Some (App.mk [Scenario.beach] None None false ""
               (Some (ErrorDetails.mk "Generation Failed"
                        ["The model did not return any video.";
                         "This could be due to your prompt. Please try a different prompt."]
                        generation_failed))).
Proof.
  apply (@no_videos_generated Scenario.nothing 3 "A beach at dawn" 2%Z AR_16_9
           "Remix" "A beach at dawn" Scenario.gallery (Scenario.finished (Some []))).
  - exists Scenario.pending. split; reflexivity.
  - right. exists {| generatedVideos := Some [] |}. split; [reflexivity |].
    right. reflexivity.
Defined.

(** The orchestrator returns when the job is done with at least one handle
    and every fetch delivers its blob: one source for each handle, in
    order. *)
Lemma generateVideoFromText_succeeds (w : World) (polls : nat) (prompt : string)
    (n : Z) (ar : AspectRatio) (operation : Operation)
    (resp : GenerateVideosResponse) (videos : list GeneratedVideo)
    (blobs : list Blob) :
  Completes w polls prompt n ar operation ->
  response operation = Some resp ->
  generatedVideos resp = Some videos ->
  videos <> [] ->
  Forall2 (Delivers w) videos blobs ->
  App.generateVideoFromText w polls prompt n ar
  = Some (inr (map App.bloblToBase64 blobs)).
Proof.
  intros Hdone Hresp Hvideos Hne Hall.
  rewrite (generateVideoFromText_completes Hdone).
  rewrite (collectVideos_batch w operation Hresp Hvideos Hne).
  now rewrite (batch_all_fetched Hall).
Qed.

(** C5.  Whenever the orchestrator returns, the job of the request is done
    with a list of result handles that is not empty, every fetch succeeded
    and delivered its blob, and the returned list has one source for each
    handle, in order: its length is the number of handles the job
    reported, which is at least one, whatever count was requested. *)
Theorem returns_one_source_per_handle (w : World) (polls : nat) (prompt : string)
    (numberOfVideos : Z) (ar : AspectRatio) (sources : list (option string)) :
  App.generateVideoFromText w polls prompt numberOfVideos ar = Some (inr sources) ->
  exists operation resp videos blobs,
    Completes w polls prompt numberOfVideos ar operation
    /\ response operation = Some resp
    /\ generatedVideos resp = Some videos
    /\ length sources = length videos
    /\ 0 < length sources
    /\ Forall2 (Delivers w) videos blobs
    /\ sources = map App.bloblToBase64 blobs.
Proof.
  intros H.
  destruct (generateVideoFromText_returns _ _ _ _ _ H) as [operation [Hdone Hcollect]].
  destruct (collectVideos_returns _ _ Hcollect) as [resp [videos [Hr [Hv [Hne Hall]]]]].
  destruct (batch_fulfilled _ _ Hall) as [blobs [Hblobs ->]].
  exists operation, resp, videos, blobs.
  assert (Hlen : length (map App.bloblToBase64 blobs) = length videos)
    by (rewrite length_map; symmetry; exact (Forall2_length Hblobs)).
  repeat (split; [assumption |]). split; [| now split].
  rewrite Hlen. destruct videos; [contradiction | simpl; lia].
Qed.

Lemma returns_one_source_per_handle_witness :
  exists operation resp videos blobs,
    Completes Scenario.oneGood 3 "A beach at dawn" 2%Z AR_16_9 operation
    /\ response operation = Some resp
    /\ generatedVideos resp = Some videos
    /\ length [Some "AAAA"] = length videos
    /\ 0 < length [Some "AAAA"]
    /\ Forall2 (Delivers Scenario.oneGood) videos blobs
    /\ [Some "AAAA"] = map App.bloblToBase64 blobs.
Proof.
  apply (@returns_one_source_per_handle Scenario.oneGood 3 "A beach at dawn" 2%Z
           AR_16_9 [Some "AAAA"]).
  reflexivity.
Defined.

(** Two variations are requested, the job reports one handle, its fetch
    succeeds: the orchestrator returns one source. *)
Lemma returns_fewer_than_requested :
  exists sources,
    App.generateVideoFromText Scenario.oneGood 3 "A beach at dawn" 2%Z AR_16_9
    = Some (inr sources)
    /\ Z.of_nat (length sources) <> 2%Z.
Proof.
  exists [Some "AAAA"]. split; [reflexivity | discriminate].
Qed.

(** ** Remix *)

(** C9.  Two variations of the video titled Beach are requested, the job
    reports two handles and both fetches succeed: the gallery list becomes
    two new records, titled Remix of "Beach" (1/2) and Remix of "Beach"
    (2/2) in that order, followed by the records it had; the first new
    record is the one played. *)
Theorem remix_beach_two_variations (w : World) (polls : nat) (video : Video.t)
    (options : Options.t) (s : App.State) (operation : Operation)
    (resp : GenerateVideosResponse) (first second : GeneratedVideo)
    (blob1 blob2 : Blob) :
  Video.title video = "Beach" ->
  Options.numberOfVideos options = 2%Z ->
  Completes w polls (App.promptTextOf video options) 2 (Options.aspectRatio options)
            operation ->
  response operation = Some resp ->
  generatedVideos resp = Some [first; second] ->
  Delivers w first blob1 ->
  Delivers w second blob2 ->
  let record1 :=
    Video.mk (randomUUID w 0)
      ("data:video/mp4;base64," ++ interpolate (App.bloblToBase64 blob1))
      ("Remix of " ++ DQUOTE ++ "Beach" ++ DQUOTE ++ " (1/2)")
      (Video.description video) in
  let record2 :=
    Video.mk (randomUUID w 1)
      ("data:video/mp4;base64," ++ interpolate (App.bloblToBase64 blob2))
      ("Remix of " ++ DQUOTE ++ "Beach" ++ DQUOTE ++ " (2/2)")
      (Video.description video) in
  App.handleSaveEdit w polls video options s
  = Some (App.mk (record1 :: record2 :: App.videos s) (Some record1) None false
                 (App.searchQuery s) None).
Proof.
  intros Htitle Hn Hdone Hresp Hvideos Hok1 Hok2. cbn zeta.
  unfold App.handleSaveEdit. rewrite Hn, Htitle.
  assert (Hrun := generateVideoFromText_succeeds (blobs := [blob1; blob2])
                    Hdone Hresp Hvideos
                    ltac:(discriminate) ltac:(repeat constructor; assumption)).
  rewrite (generateAndAddNewVideos_fulfilled w polls _ _ _ _ _ _ Hrun
             ltac:(discriminate)).
  reflexivity.
Qed.

Lemma remix_beach_two_variations_witness :
  App.handleSaveEdit Scenario.twoGood 3 Scenario.beach
    (Options.mk 2%Z Q_fast D_medium AR_16_9) Scenario.gallery
  = Some (App.mk
            [Video.mk "uuid-0" "data:video/mp4;base64,AAAA"
               ("Remix of " ++ DQUOTE ++ "Beach" ++ DQUOTE ++ " (1/2)")
               "A beach at dawn";
             Video.mk "uuid-1" "data:video/mp4;base64,AAAA"
               ("Remix of " ++ DQUOTE ++ "Beach" ++ DQUOTE ++ " (2/2)")
               "A beach at dawn";
             Scenario.beach]
            (Some (Video.mk "uuid-0" "data:video/mp4;base64,AAAA"
                     ("Remix of " ++ DQUOTE ++ "Beach" ++ DQUOTE ++ " (1/2)")
                     "A beach at dawn"))
            None false "" None).
Proof.
  apply (@remix_beach_two_variations Scenario.twoGood 3 Scenario.beach
           (Options.mk 2%Z Q_fast D_medium AR_16_9) Scenario.gallery
           (Scenario.finished (Some [Scenario.good1; Scenario.good2]))
           {| generatedVideos := Some [Scenario.good1; Scenario.good2] |}
           Scenario.good1 Scenario.good2
           {| readAsDataURL := "data:video/mp4;base64,AAAA" |}
           {| readAsDataURL := "data:video/mp4;base64,AAAA" |}).
  - reflexivity.
  - reflexivity.
  - exists Scenario.pending. split; reflexivity.
  - reflexivity.
  - reflexivity.
  - exists Scenario.answer200. split; [| split; reflexivity].
    exists "https://videos.example/1?alt=media", 2. split; reflexivity.
  - exists Scenario.answer200. split; [| split; reflexivity].
    exists "https://videos.example/2?alt=media", 2. split; reflexivity.
Defined.

(** ** Further facts *)

(** A request that completes within some number of polls completes, with
    the same operation, within any larger number. *)
Lemma Completes_more_polls (w : World) (polls extra : nat) (prompt : string)
    (n : Z) (ar : AspectRatio) (operation : Operation) :
  Completes w polls prompt n ar operation ->
  Completes w (polls + extra) prompt n ar operation.
Proof.
  intros [operation0 [H0 H1]]. exists operation0. split; [exact H0 |].
  now apply awaitDone_more_polls.
Qed.

(** The operation a request completes with is done. *)
Lemma Completes_done (w : World) (polls : nat) (prompt : string)
    (n : Z) (ar : AspectRatio) (operation : Operation) :
  Completes w polls prompt n ar operation -> done operation = true.
Proof.
  intros [operation0 [_ H1]]. exact (awaitDone_done _ _ _ _ H1).
Qed.

(** While the job is pending at the bound, neither the orchestrator nor the
    handler has an outcome yet. *)
Lemma pending_job_example :
  App.generateVideoFromText Scenario.twoGood 2 "A beach at dawn" 2%Z AR_16_9 = None
  /\ App.handleSaveEdit Scenario.twoGood 2 Scenario.beach
       (Options.mk 2%Z Q_fast D_medium AR_16_9) Scenario.gallery = None.
Proof. split; reflexivity. Qed.

(** The page as it opens (fast, medium, no mask): the prompt is the
    description followed by the phrase of the medium tier. *)
Lemma default_remix_prompt (video : Video.t) :
  remixPrompt video EditVideoPage.initial
  = Video.description video ++ LF ++ LF ++ "(Medium video, ~10 seconds)".
Proof. reflexivity. Qed.

(** A mask and a blank instruction: nothing is appended to the description. *)
Lemma blank_instruction_example :
  fst (EditVideoPage.handleSave Scenario.beach
         (EditVideoPage.mk "   " true 1%Z Q_fast D_medium AR_16_9
                           VideoMaskEditor.initial))
  = Scenario.beach.
Proof. reflexivity. Qed.

(** Searching BEACH finds the video titled Beach; searching cat finds
    nothing in that gallery. *)
Lemma search_example :
  App.filteredVideos (App.mk [Scenario.beach] None None false "BEACH" None)
  = [Scenario.beach]
  /\ App.filteredVideos (App.mk [Scenario.beach] None None false "cat" None) = [].
Proof. split; reflexivity. Qed.

(** Only the final extension is stripped, and a name that is nothing but an
    extension gives the empty title. *)
Lemma replaceExtension_examples :
  replaceExtension "archive.tar.gz" = "archive.tar"
  /\ replaceExtension "notes" = "notes"
  /\ replaceExtension ".hidden" = "".
Proof. repeat split. Qed.

(** A single variation keeps the base title, without a counter. *)
Lemma single_variation_title :
  option_map Video.title
    (hd_error
       (App.newVideosOf Scenario.oneGood 1%Z "Remix" "A beach at dawn" [Some "AAAA"]))
  = Some "Remix".
Proof. reflexivity. Qed.

(** ** Upload, for every file name *)

(** X1.  For every file whose name is a stem, a dot and an extension (one
    or more characters, none a dot or a slash), the upload puts one record
    titled with the stem in front of the gallery list and changes nothing
    else; the stem may itself contain dots and slashes. *)
Theorem upload_strips_final_extension (w : World) (s : App.State)
    (stem ext : string) :
  extensionBody ext = true ->
  let file := {| name := stem ++ String "."%char ext |} in
  App.handleFileChange w (Some file) s
  = App.mk (Video.mk (randomUUID w 0) (createObjectURL w file) stem
                     "A user-uploaded video." :: App.videos s)
           (App.playingVideo s) (App.editingVideo s) (App.isSaving s)
           (App.searchQuery s) (App.generationError s).
Proof.
  intros Hext. cbn zeta. unfold App.handleFileChange, App.setVideos.
  cbn [name App.videos]. now rewrite replaceExtension_strips.
Qed.

Lemma upload_strips_final_extension_witness :
  App.handleFileChange Scenario.twoGood
    (Some {| name := "holiday.2024/day.one" ++ String "."%char "mp4" |})
    Scenario.gallery
  = App.mk [Video.mk "uuid-0" "blob:holiday.2024/day.one.mp4" "holiday.2024/day.one"
                     "A user-uploaded video."; Scenario.beach]
           None None false "" None.
Proof.
  apply (@upload_strips_final_extension Scenario.twoGood Scenario.gallery
           "holiday.2024/day.one" "mp4").
  reflexivity.
Defined.

Lemma HasFinalExtension_cons (c : ascii) (s stem ext : string) :
  HasFinalExtension (String c s) stem ext ->
  (stem = "" /\ c = "."%char /\ ext = s /\ extensionBody s = true)
  \/ exists stem', stem = String c stem' /\ HasFinalExtension s stem' ext.
Proof.
  intros [H Hext]. destruct stem as [|d stem']; simpl in H.
  - injection H as -> ->. left. now repeat split.
  - injection H as -> ->. right. exists stem'. split; [reflexivity |]. now split.
Qed.

(** X2.  The title an upload gets, for every name: when the name has a
    final extension the title is the part before its dot, and otherwise
    (no dot, a dot at the very end, a slash after the last dot) the title
    is the whole name. *)
Theorem upload_title_cases (fileName : string) :
  (exists stem ext,
      HasFinalExtension fileName stem ext /\ replaceExtension fileName = stem)
  \/ ((forall stem ext, ~ HasFinalExtension fileName stem ext)
      /\ replaceExtension fileName = fileName).
Proof.
  induction fileName as [|c s IH].
  - right. split; [| reflexivity]. intros stem ext [H _].
    destruct stem; discriminate.
  - cbn [replaceExtension].
    destruct (Ascii.eqb c "."%char && extensionBody s) eqn:E.
    + apply andb_true_iff in E. destruct E as [Ec Es].
      apply Ascii.eqb_eq in Ec. subst c.
      left. exists "", s. split; [| reflexivity]. now split.
    + destruct IH as [[stem [ext [[-> Hext] Hr]]] | [Hnone Hr]].
      * left. exists (String c stem), ext. split; [now split |].
        now rewrite Hr.
      * right. split; [| now rewrite Hr].
        intros stem ext H. apply HasFinalExtension_cons in H.
        destruct H as [[_ [-> [_ Hs]]] | [stem' [_ H]]].
        -- rewrite Hs in E. discriminate.
        -- exact (Hnone _ _ H).
Qed.

(** ** The handler of a generation, whatever the outcome *)

Lemma generateVideoFromText_nonempty (w : World) (polls : nat) (prompt : string)
    (n : Z) (ar : AspectRatio) (sources : list (option string)) :
  App.generateVideoFromText w polls prompt n ar = Some (inr sources) ->
  sources <> [].
Proof.
  intros H.
  destruct (generateVideoFromText_returns _ _ _ _ _ H) as [operation [_ Hcollect]].
  destruct (collectVideos_returns _ _ Hcollect) as [resp [videos [_ [_ [Hne Hall]]]]].
  destruct (batch_fulfilled _ _ Hall) as [blobs [Hblobs ->]].
  destruct Hblobs; [contradiction | discriminate].
Qed.

(** X3.  Whenever the handler of a generation finishes, the busy flag is
    down again and the search field and the edited video are as before;
    and either the orchestrator returned sources, the new records are in
    front of the gallery list, the first of them is played and there is
    no banner, or the orchestrator threw, a banner for what it threw is
    up, and the gallery list and the played video are untouched.  The
    handler's own error for an empty result never arises. *)
Theorem generation_all_or_nothing (w : World) (polls : nat) (prompt : string)
    (n : Z) (baseTitle baseDescription : string) (ar : AspectRatio)
    (s s' : App.State) :
  App.generateAndAddNewVideos w polls prompt n baseTitle baseDescription ar s = Some s' ->
  App.isSaving s' = false
  /\ App.editingVideo s' = App.editingVideo s
  /\ App.searchQuery s' = App.searchQuery s
  /\ ((exists sources,
         App.generateVideoFromText w polls prompt n ar = Some (inr sources)
         /\ sources <> []
         /\ App.videos s'
            = (App.newVideosOf w n baseTitle baseDescription sources ++ App.videos s)%list
         /\ App.playingVideo s'
            = hd_error (App.newVideosOf w n baseTitle baseDescription sources)
         /\ App.generationError s' = None)
      \/ (exists error,
            App.generateVideoFromText w polls prompt n ar = Some (inl error)
            /\ App.videos s' = App.videos s
            /\ App.playingVideo s' = App.playingVideo s
            /\ App.generationError s' = Some (App.errorDetailsOf error))).
Proof.
  intros H.
  destruct (App.generateVideoFromText w polls prompt n ar) as [[error | sources] |] eqn:Hrun.
  - rewrite (generateAndAddNewVideos_rejected w polls prompt n baseTitle
               baseDescription ar s Hrun) in H.
    injection H as <-. cbn. repeat (split; [reflexivity |]).
    right. exists error. now repeat split.
  - pose proof (generateVideoFromText_nonempty _ _ _ _ _ Hrun) as Hne.
    rewrite (generateAndAddNewVideos_fulfilled w polls prompt n baseTitle
               baseDescription ar s Hrun Hne) in H.
    injection H as <-. cbn [App.isSaving App.editingVideo App.searchQuery
      App.videos App.playingVideo App.generationError].
    repeat (split; [reflexivity |]).
    left. exists sources. repeat split; assumption.
  - unfold App.generateAndAddNewVideos in H. rewrite Hrun in H. discriminate.
Qed.

Lemma generation_all_or_nothing_witness :
  let w := Scenario.denied in
  let s := Scenario.gallery in
  let s' := App.mk [Scenario.beach] None None false ""
              (Some (App.errorDetailsOf (ErrorObj "403 PERMISSION_DENIED"))) in
  App.isSaving s' = false
  /\ App.editingVideo s' = App.editingVideo s
  /\ App.searchQuery s' = App.searchQuery s
  /\ ((exists sources,
         App.generateVideoFromText w 0 "A beach at dawn" 1%Z AR_16_9 = Some (inr sources)
         /\ sources <> []
         /\ App.videos s'
            = (App.newVideosOf w 1%Z "Remix" "A beach at dawn" sources ++ App.videos s)%list
         /\ App.playingVideo s'
            = hd_error (App.newVideosOf w 1%Z "Remix" "A beach at dawn" sources)
         /\ App.generationError s' = None)
      \/ (exists error,
            App.generateVideoFromText w 0 "A beach at dawn" 1%Z AR_16_9
            = Some (inl error)
            /\ App.videos s' = App.videos s
            /\ App.playingVideo s' = App.playingVideo s
            /\ App.generationError s' = Some (App.errorDetailsOf error))).
Proof.
  apply (@generation_all_or_nothing Scenario.denied 0 "A beach at dawn" 1%Z
           "Remix" "A beach at dawn" AR_16_9 Scenario.gallery).
  reflexivity.
Defined.

(** X4.  When the service rejects the request, no poll is made: for every
    bound on the polls the orchestrator rejects with what the service
    threw, and the handler puts up the banner for it and adds nothing. *)
Theorem service_rejection_is_reported (w : World) (polls : nat) (prompt : string)
    (n : Z) (baseTitle baseDescription : string) (ar : AspectRatio)
    (s : App.State) (e : Thrown) :
  generateVideos w
    {| model := App.VEO_MODEL_NAME; prompt := prompt;
       config_numberOfVideos := n; config_aspectRatio := ar |} = inl e ->
  App.generateVideoFromText w polls prompt n ar = Some (inl e)
  /\ App.generateAndAddNewVideos w polls prompt n baseTitle baseDescription ar s
     = Some (App.mk (App.videos s) (App.playingVideo s) (App.editingVideo s) false
                    (App.searchQuery s) (Some (App.errorDetailsOf e))).
Proof.
  intros H.
  assert (Hrun : App.generateVideoFromText w polls prompt n ar = Some (inl e))
    by (unfold App.generateVideoFromText; now rewrite H).
  split; [exact Hrun | now apply generateAndAddNewVideos_rejected].
Qed.

Lemma service_rejection_is_reported_witness :
  App.generateVideoFromText Scenario.denied 0 "A beach at dawn" 1%Z AR_16_9
  = Some (inl (ErrorObj "403 PERMISSION_DENIED"))
  /\ App.generateAndAddNewVideos Scenario.denied 0 "A beach at dawn" 1%Z "Remix"
       "A beach at dawn" AR_16_9 Scenario.gallery
     = Some (App.mk [Scenario.beach] None None false ""
               (Some (ErrorDetails.mk "Generation Failed"
                        ["Veo 3 is only available on the Paid Tier.";
                         "Please select your Cloud Project to get started."]
                        api_key))).
Proof.
  apply (@service_rejection_is_reported Scenario.denied 0 "A beach at dawn" 1%Z
           "Remix" "A beach at dawn" AR_16_9 Scenario.gallery
           (ErrorObj "403 PERMISSION_DENIED")).
  reflexivity.
Defined.

(** ** The polling loop *)

Lemma afterPolls_shift (w : World) (n k : nat) (operation operation' : Operation) :
  getVideosOperation w k operation = inr operation' ->
  afterPolls w (S n) k operation = afterPolls w n (S k) operation'.
Proof. intros H. cbn [afterPolls]. now rewrite H. Qed.

Lemma awaitDone_first_settled (w : World) (n : nat) :
  forall k operation polls,
    stopsPolling (afterPolls w n k operation) = true ->
    (forall m, m < n -> stopsPolling (afterPolls w m k operation) = false) ->
    App.awaitDone w polls k operation
    = if n <=? polls then Some (afterPolls w n k operation) else None.
Proof.
  induction n as [|n IH]; intros k operation polls Hstop Hbefore.
  - cbn in Hstop. cbn [Nat.leb afterPolls].
    destruct polls; cbn [App.awaitDone]; now rewrite Hstop.
  - assert (Hdone : done operation = false) by (apply (Hbefore 0); lia).
    destruct polls as [|polls]; cbn [App.awaitDone Nat.leb]; rewrite Hdone;
      [reflexivity |].
    cbn [afterPolls] in *.
    destruct (getVideosOperation w k operation) as [e | operation'] eqn:Hpoll.
    + destruct n as [|n]; [reflexivity |].
      specialize (Hbefore 1 ltac:(lia)). cbn [afterPolls] in Hbefore.
      rewrite Hpoll in Hbefore. discriminate.
    + apply IH; [exact Hstop |].
      intros m Hm. specialize (Hbefore (S m) ltac:(lia)).
      cbn [afterPolls] in Hbefore. now rewrite Hpoll in Hbefore.
Qed.

(** X5.  The loop polls until the first poll that rejects or shows the job
    done, and no further: when that happens at the n-th poll (n = 0 for a
    job that is done from the start), the loop ends with that outcome
    under every bound of at least n polls, and is still waiting under
    every smaller bound. *)
Theorem polling_stops_at_first_settled (w : World) (n polls : nat)
    (operation0 : Operation) :
  stopsPolling (afterPolls w n 0 operation0) = true ->
  (forall m, m < n -> stopsPolling (afterPolls w m 0 operation0) = false) ->
  App.awaitDone w polls 0 operation0
  = if n <=? polls then Some (afterPolls w n 0 operation0) else None.
Proof. apply awaitDone_first_settled. Qed.

Lemma polling_stops_at_first_settled_witness :
  App.awaitDone Scenario.twoGood 5 0 Scenario.pending
  = if 3 <=? 5
    then Some (afterPolls Scenario.twoGood 3 0 Scenario.pending)
    else None.
Proof.
  apply (@polling_stops_at_first_settled Scenario.twoGood 3 5 Scenario.pending).
  - reflexivity.
  - intros m Hm.
    destruct m as [|[|[|m]]]; [reflexivity | reflexivity | reflexivity | lia].
Defined.

(** The bound on the polls is only a horizon of observation: once the
    handler of a generation has finished under some bound, it finishes in
    the same state under every larger bound. *)
Lemma outcome_stable_under_longer_wait (w : World) (polls extra : nat)
    (prompt : string) (n : Z) (baseTitle baseDescription : string)
    (ar : AspectRatio) (s s' : App.State) :
  App.generateAndAddNewVideos w polls prompt n baseTitle baseDescription ar s = Some s' ->
  App.generateAndAddNewVideos w (polls + extra) prompt n baseTitle baseDescription ar s
  = Some s'.
Proof.
  unfold App.generateAndAddNewVideos, App.generateVideoFromText.
  destruct (generateVideos w _) as [e | operation0]; [tauto |].
  destruct (App.awaitDone w polls 0 operation0) as [outcome |] eqn:H; [| discriminate].
  now rewrite (awaitDone_more_polls w extra polls 0 operation0 H).
Qed.

(** ** What the orchestrator can throw *)

Lemma awaitDone_rejected (w : World) (polls : nat) :
  forall k operation e,
    App.awaitDone w polls k operation = Some (inl e) ->
    exists n, n <= polls /\ afterPolls w n k operation = inl e.
Proof.
  induction polls as [|polls IH]; intros k operation e; cbn [App.awaitDone].
  - destruct (done operation); discriminate.
  - destruct (done operation); [discriminate |].
    destruct (getVideosOperation w k operation) as [e' | operation'] eqn:Hpoll.
    + intros H. injection H as <-. exists 1. split; [lia |].
      cbn [afterPolls]. now rewrite Hpoll.
    + intros H. destruct (IH _ _ _ H) as [n [Hn Hafter]].
      exists (S n). split; [lia |]. now rewrite (afterPolls_shift w n k operation Hpoll).
Qed.

(** X7.  The orchestrator throws in these ways only: the service rejected
    the request; a poll rejected; the job was done without any video (the
    "No videos generated" error); or the job was done with videos and the
    callback of one of them threw, because its URI did not decode, its
    fetch got no answer, its answer had a non-success status (the "Failed
    to fetch video" error with that status and status text), or the body
    of its answer could not be read. *)
Theorem orchestrator_rejections (w : World) (polls : nat) (prompt : string)
    (n : Z) (ar : AspectRatio) (e : Thrown) :
  App.generateVideoFromText w polls prompt n ar = Some (inl e) ->
  generateVideos w
    {| model := App.VEO_MODEL_NAME; prompt := prompt;
       config_numberOfVideos := n; config_aspectRatio := ar |} = inl e
  \/ (exists operation0 k,
        generateVideos w
          {| model := App.VEO_MODEL_NAME; prompt := prompt;
             config_numberOfVideos := n; config_aspectRatio := ar |} = inr operation0
        /\ k <= polls /\ afterPolls w k 0 operation0 = inl e)
  \/ (exists operation,
        Completes w polls prompt n ar operation
        /\ e = ErrorObj "No videos generated"
        /\ (response operation = None
            \/ exists resp,
                 response operation = Some resp
                 /\ (generatedVideos resp = None \/ generatedVideos resp = Some [])))
  \/ (exists operation resp videos culprit,
        Completes w polls prompt n ar operation
        /\ response operation = Some resp
        /\ generatedVideos resp = Some videos
        /\ In culprit videos
        /\ (decodeURIComponent w (uri culprit) = inl e
            \/ (exists url arrival,
                   decodeURIComponent w (uri culprit) = inr url
                   /\ fetch w (url ++ "&key=" ++ API_KEY w) = (arrival, inl e))
            \/ (exists res,
                   Answers w culprit res /\ ok res = false
                   /\ e = ErrorObj ("Failed to fetch video: "
                                    ++ numberToString (status res)
                                    ++ " " ++ statusText res))
            \/ (exists res,
                   Answers w culprit res /\ ok res = true /\ blob res = inl e))).
Proof.
  unfold App.generateVideoFromText, Completes.
  destruct (generateVideos w _) as [e0 | operation0] eqn:H0.
  - intros H. injection H as <-. now left.
  - destruct (App.awaitDone w polls 0 operation0) as [[e1 | operation] |] eqn:H1;
      try discriminate; intros H; injection H as H.
    + subst e1. right; left. destruct (awaitDone_rejected _ _ _ _ H1) as [k [Hk Hafter]].
      now exists operation0, k.
    + right; right. unfold App.collectVideos in H.
      destruct (response operation) as [resp |] eqn:Hr.
      * destruct (generatedVideos resp) as [videos |] eqn:Hv.
        -- destruct videos as [|v videos].
           ++ left. injection H as <-. exists operation.
              split; [now exists operation0 |]. split; [reflexivity |].
              right. exists resp. auto.
           ++ right. cbn [length Nat.eqb] in H. unfold App.Promise_all in H.
              destruct (App.firstRejection (map (App.fetchVideo w) (v :: videos)))
                as [[t e'] |] eqn:Hfirst; [| discriminate].
              injection H as ->. apply firstRejection_In in Hfirst.
              destruct (fetchVideo_rejection w _ _ _ Hfirst) as [culprit [Hin Hrej]].
              exists operation, resp, (v :: videos), culprit.
              split; [now exists operation0 |]. now repeat split.
        -- left. injection H as <-. exists operation.
           split; [now exists operation0 |]. split; [reflexivity |].
           right. exists resp. auto.
      * left. injection H as <-. exists operation.
        split; [now exists operation0 |]. split; [reflexivity |]. now left.
Qed.

Lemma orchestrator_rejections_witness :
  let w := Scenario.malformedAndBroken in
  let e := ErrorObj "URI malformed" in
  let request :=
    {| model := App.VEO_MODEL_NAME; prompt := "A beach at dawn";
       config_numberOfVideos := 2%Z; config_aspectRatio := AR_16_9 |} in
  generateVideos w request = inl e
  \/ (exists operation0 k,
        generateVideos w request = inr operation0
        /\ k <= 3 /\ afterPolls w k 0 operation0 = inl e)
  \/ (exists operation,
        Completes w 3 "A beach at dawn" 2%Z AR_16_9 operation
        /\ e = ErrorObj "No videos generated"
        /\ (response operation = None
            \/ exists resp,
                 response operation = Some resp
                 /\ (generatedVideos resp = None \/ generatedVideos resp = Some [])))
  \/ (exists operation resp videos culprit,
        Completes w 3 "A beach at dawn" 2%Z AR_16_9 operation
        /\ response operation = Some resp
        /\ generatedVideos resp = Some videos
        /\ In culprit videos
        /\ (decodeURIComponent w (uri culprit) = inl e
            \/ (exists url arrival,
                   decodeURIComponent w (uri culprit) = inr url
                   /\ fetch w (url ++ "&key=" ++ API_KEY w) = (arrival, inl e))
            \/ (exists res,
                   Answers w culprit res /\ ok res = false
                   /\ e = ErrorObj ("Failed to fetch video: "
                                    ++ numberToString (status res)
                                    ++ " " ++ statusText res))
            \/ (exists res,
                   Answers w culprit res /\ ok res = true /\ blob res = inl e))).
Proof.
  apply (@orchestrator_rejections Scenario.malformedAndBroken 3 "A beach at dawn"
           2%Z AR_16_9 (ErrorObj "URI malformed")).
  reflexivity.
Defined.

(** X8.  When one item of a batch is answered with a non-success status and
    every other item of the batch delivers its blob, the error the
    orchestrator throws is the "Failed to fetch video" error with the
    status and status text of that answer, whenever the answers arrive. *)
Theorem failed_fetch_names_its_status (w : World) (polls : nat) (prompt : string)
    (n : Z) (ar : AspectRatio) (operation : Operation)
    (resp : GenerateVideosResponse) (videos : list GeneratedVideo)
    (failing : GeneratedVideo) (answer : FetchResponse) :
  Completes w polls prompt n ar operation ->
  response operation = Some resp ->
  generatedVideos resp = Some videos ->
  In failing videos ->
  Answers w failing answer ->
  ok answer = false ->
  (forall other, In other videos ->
                 other = failing \/ exists b, Delivers w other b) ->
  App.generateVideoFromText w polls prompt n ar
  = Some (inl (ErrorObj ("Failed to fetch video: "
                         ++ numberToString (status answer)
                         ++ " " ++ statusText answer))).
Proof.
  intros Hdone Hresp Hvideos Hin Hanswer Hfail Hothers.
  assert (Hne : videos <> []) by (intros ->; contradiction).
  rewrite (generateVideoFromText_completes Hdone).
  rewrite (collectVideos_batch w operation Hresp Hvideos Hne).
  pose proof (fetchVideo_status_failure Hanswer Hfail) as Hitem.
  destruct (fetchVideo_fails w videos failing Hin Hitem) as [t He].
  destruct (Promise_all_rejects _ _ _ He) as [t' [e' [-> He']]].
  apply in_map_iff in He'. destruct He' as [culprit [Hc Hcin]].
  apply (f_equal snd) in Hc. cbn [snd] in Hc.
  destruct (Hothers culprit Hcin) as [-> | [b Hb]].
  - rewrite Hitem in Hc. now injection Hc as <-.
  - rewrite (fetchVideo_delivers Hb) in Hc. discriminate.
Qed.

Lemma failed_fetch_names_its_status_witness :
  App.generateVideoFromText Scenario.oneBroken 3 "A beach at dawn" 2%Z AR_16_9
  = Some (inl (ErrorObj ("Failed to fetch video: "
                         ++ numberToString (status Scenario.answer500)
                         ++ " " ++ statusText Scenario.answer500))).
Proof.
  apply (@failed_fetch_names_its_status Scenario.oneBroken 3 "A beach at dawn" 2%Z
           AR_16_9 (Scenario.finished (Some [Scenario.good1; Scenario.broken]))
           {| generatedVideos := Some [Scenario.good1; Scenario.broken] |}
           [Scenario.good1; Scenario.broken] Scenario.broken Scenario.answer500).
  - exists Scenario.pending. split; reflexivity.
  - reflexivity.
  - reflexivity.
  - simpl. right. left. reflexivity.
  - exists "https://videos.example/broken?alt=media", 1. split; reflexivity.
  - reflexivity.
  - intros other [<- | [<- | []]]; [right | now left].
    exists {| readAsDataURL := "data:video/mp4;base64,AAAA" |}, Scenario.answer200.
    split; [| split; reflexivity].
    exists "https://videos.example/1?alt=media", 2. split; reflexivity.
Defined.

(** ** Decimal numerals *)

Lemma to_int_not_nil (z : Z) :
  Z.to_int z <> Decimal.Pos Decimal.Nil /\ Z.to_int z <> Decimal.Neg Decimal.Nil.
Proof.
  destruct z as [|p|p]; cbn; split; try discriminate;
    intros H; injection H as H; now apply DecimalPos.Unsigned.to_uint_nonnil in H.
Qed.

Lemma numberToString_inj (a b : Z) : numberToString a = numberToString b -> a = b.
Proof.
  unfold numberToString. intros H.
  destruct (to_int_not_nil a) as [Ha1 Ha2], (to_int_not_nil b) as [Hb1 Hb2].
  pose proof (NilZero.isi _ Ha1 Ha2) as Ia. pose proof (NilZero.isi _ Hb1 Hb2) as Ib.
  rewrite H in Ia. rewrite Ia in Ib. injection Ib as Ib.
  now apply DecimalZ.to_int_inj.
Qed.

Lemma lacks_app (c : ascii) (a b : string) :
  lacks c (a ++ b) = lacks c a && lacks c b.
Proof.
  induction a as [|d a IH]; simpl; [reflexivity |]. now rewrite IH, andb_assoc.
Qed.

Lemma string_of_uint_lacks (c : ascii) (d : Decimal.uint) :
  lacks c "0123456789" = true -> lacks c (NilEmpty.string_of_uint d) = true.
Proof.
  intros H. cbn in H. repeat (apply andb_true_iff in H; destruct H as [? H]).
  induction d; cbn [NilEmpty.string_of_uint lacks]; try reflexivity;
    apply andb_true_iff; split; assumption.
Qed.

(** A numeral has digits and at most a minus sign in front. *)
Lemma numberToString_lacks (c : ascii) (z : Z) :
  lacks c "-0123456789" = true -> lacks c (numberToString z) = true.
Proof.
  intros H. cbn [lacks] in H. apply andb_true_iff in H. destruct H as [Hminus Hdigits].
  assert (Hu : forall d, lacks c (NilZero.string_of_uint d) = true).
  { intros d. pose proof (string_of_uint_lacks c d Hdigits) as Hd.
    destruct d; try exact Hd. cbn in Hdigits |- *.
    apply andb_true_iff in Hdigits. destruct Hdigits as [H0 _]. now rewrite H0. }
  unfold numberToString, NilZero.string_of_int.
  destruct (Z.to_int z); [apply Hu |].
  cbn [lacks]. now rewrite Hminus, Hu.
Qed.

Lemma Contains_skip_prefix (c : ascii) (needle before s : string) :
  lacks c before = true ->
  Contains (String c needle) (before ++ s) <-> Contains (String c needle) s.
Proof.
  intros Hlacks. split.
  - induction before as [|d before IH]; [tauto |].
    cbn [lacks] in Hlacks. apply andb_true_iff in Hlacks. destruct Hlacks as [Hd Hrest].
    intros [a [b H]]. destruct a as [|x a]; simpl in H; injection H as Hx H.
    + subst d. rewrite Ascii.eqb_refl in Hd. discriminate.
    + apply IH; [exact Hrest |]. now exists a, b.
  - intros [a [b ->]]. exists (before ++ a), b. now rewrite append_assoc.
Qed.

(** ** The banner of a failed download *)

(** X9.  The banner for a failed fetch, by the status text of the answer:
    it is the download banner of type [network], except when the status
    text itself contains "No videos generated", in which case the first
    test of the handler wins and the banner is the one of type
    [generation_failed].  The status code plays no part. *)
Theorem download_failure_banner (statusCode : Z) (reason : string) :
  let message := "Failed to fetch video: " ++ numberToString statusCode
                 ++ " " ++ reason in
  (~ Contains "No videos generated" reason
   /\ App.errorDetailsOf (ErrorObj message)
      = ErrorDetails.mk "Download Failed"
          ["The generated video could not be downloaded.";
           "Please check your network connection and try again."]
          network)
  \/ (Contains "No videos generated" reason
      /\ App.errorDetailsOf (ErrorObj message)
         = ErrorDetails.mk "Generation Failed"
             ["The model did not return any video.";
              "This could be due to your prompt. Please try a different prompt."]
             generation_failed).
Proof.
  cbn zeta.
  assert (Hskip : forall needle,
             Contains (String "N"%char needle)
               ("Failed to fetch video: " ++ numberToString statusCode ++ " " ++ reason)
             <-> Contains (String "N"%char needle) reason).
  { intros needle.
    rewrite <- (Contains_skip_prefix "N"%char needle
                  ("Failed to fetch video: " ++ numberToString statusCode ++ " ") reason).
    - now rewrite !append_assoc.
    - rewrite !lacks_app, numberToString_lacks by reflexivity. reflexivity. }
  unfold App.errorDetailsOf.
  destruct (includes _ "No videos generated") eqn:E1.
  - right. apply includes_spec, Hskip in E1. now split.
  - left. apply not_includes in E1. rewrite Hskip in E1. split; [exact E1 |].
    assert (E2 : includes ("Failed to fetch video: " ++ numberToString statusCode
                           ++ " " ++ reason) "Failed to fetch video" = true).
    { apply includes_spec.
      exists "", (": " ++ numberToString statusCode ++ " " ++ reason). reflexivity. }
    now rewrite E2.
Qed.

(** ** The records of a batch *)

Lemma generateAndAddNewVideos_outcome (w : World) (polls : nat) (prompt : string)
    (n : Z) (baseTitle baseDescription : string) (ar : AspectRatio)
    (s s' : App.State) :
  App.generateAndAddNewVideos w polls prompt n baseTitle baseDescription ar s = Some s' ->
  (exists sources,
      sources <> []
      /\ s' = App.mk (App.newVideosOf w n baseTitle baseDescription sources
                      ++ App.videos s)%list
                (nth_error (App.newVideosOf w n baseTitle baseDescription sources) 0)
                (App.editingVideo s) false (App.searchQuery s) None)
  \/ (exists error,
        s' = App.mk (App.videos s) (App.playingVideo s) (App.editingVideo s) false
               (App.searchQuery s) (Some (App.errorDetailsOf error))).
Proof.
  intros H.
  destruct (App.generateVideoFromText w polls prompt n ar) as [[error | sources] |] eqn:Hrun.
  - rewrite (generateAndAddNewVideos_rejected w polls prompt n baseTitle
               baseDescription ar s Hrun) in H.
    injection H as <-. right. now exists error.
  - pose proof (generateVideoFromText_nonempty _ _ _ _ _ Hrun) as Hne.
    rewrite (generateAndAddNewVideos_fulfilled w polls prompt n baseTitle
               baseDescription ar s Hrun Hne) in H.
    injection H as <-. left. now exists sources.
  - unfold App.generateAndAddNewVideos in H. rewrite Hrun in H. discriminate.
Qed.

Lemma nth_error_mapFrom {A B} (f : A -> nat -> B) (l : list A) :
  forall k i,
    nth_error (App.mapFrom k f l) i
    = option_map (fun a => f a (k + i)) (nth_error l i).
Proof.
  induction l as [|a l IH]; intros k i; destruct i as [|i]; cbn; try reflexivity.
  - now rewrite Nat.add_0_r.
  - rewrite IH. now rewrite Nat.add_succ_r.
Qed.

Lemma length_mapFrom {A B} (f : A -> nat -> B) (l : list A) :
  forall k, length (App.mapFrom k f l) = length l.
Proof. induction l as [|a l IH]; intros k; cbn; [reflexivity | now rewrite IH]. Qed.

Lemma append_cancel_l (a x y : string) : a ++ x = a ++ y -> x = y.
Proof.
  induction a as [|c a IH]; simpl; [tauto |]. intros H. injection H as H. now apply IH.
Qed.

Lemma append_cancel_r (r : string) : forall x y, x ++ r = y ++ r -> x = y.
Proof.
  induction x as [|c x IH]; intros [|d y] H.
  - reflexivity.
  - apply (f_equal String.length) in H. simpl in H. rewrite append_length in H. lia.
  - apply (f_equal String.length) in H. simpl in H. rewrite append_length in H. lia.
  - simpl in H. injection H as -> H. f_equal. now apply IH.
Qed.

Lemma nth_error_newVideosOf (w : World) (n : Z) (baseTitle baseDescription : string)
    (sources : list (option string)) (i : nat) :
  nth_error (App.newVideosOf w n baseTitle baseDescription sources) i
  = option_map
      (fun source =>
         Video.mk (randomUUID w i)
           ("data:video/mp4;base64," ++ interpolate source)
           (if (1 <? n)%Z
            then baseTitle ++ " (" ++ numberToString (Z.of_nat i + 1) ++ "/"
                 ++ numberToString n ++ ")"
            else baseTitle)
           baseDescription)
      (nth_error sources i).
Proof.
  unfold App.newVideosOf, App.mapIndexed. rewrite nth_error_mapFrom.
  destruct (nth_error sources i); reflexivity.
Qed.

(** X10.  The records built from the sources of a batch: there is one for
    each source, in order, each with the base description and the data URL
    of its source.  When more than one variation was requested the i-th
    record (from 1) is titled with the base title and the counter i/n, and
    no two records of the batch have the same title; when at most one was
    requested every record has the bare base title, however many sources
    came back. *)
Theorem variation_records (w : World) (n : Z) (baseTitle baseDescription : string)
    (sources : list (option string)) :
  let records := App.newVideosOf w n baseTitle baseDescription sources in
  length records = length sources
  /\ (forall i v,
        nth_error records i = Some v ->
        Video.description v = baseDescription
        /\ Video.id v = randomUUID w i
        /\ exists source,
             nth_error sources i = Some source
             /\ Video.videoUrl v = "data:video/mp4;base64," ++ interpolate source)
  /\ ((n <= 1)%Z ->
      forall i v, nth_error records i = Some v -> Video.title v = baseTitle)
  /\ ((1 < n)%Z ->
      (forall i v,
          nth_error records i = Some v ->
          Video.title v = baseTitle ++ " (" ++ numberToString (Z.of_nat i + 1) ++ "/"
                          ++ numberToString n ++ ")")
      /\ (forall i j v v',
             nth_error records i = Some v -> nth_error records j = Some v' ->
             Video.title v = Video.title v' -> i = j)).
Proof.
  cbn zeta. split; [apply length_mapFrom |].
  assert (Hnth : forall i v,
             nth_error (App.newVideosOf w n baseTitle baseDescription sources) i = Some v ->
             exists source,
               nth_error sources i = Some source
               /\ v = Video.mk (randomUUID w i)
                        ("data:video/mp4;base64," ++ interpolate source)
                        (if (1 <? n)%Z
                         then baseTitle ++ " (" ++ numberToString (Z.of_nat i + 1)
                              ++ "/" ++ numberToString n ++ ")"
                         else baseTitle)
                        baseDescription).
  { intros i v H. rewrite nth_error_newVideosOf in H.
    destruct (nth_error sources i) as [source |]; [| discriminate].
    injection H as <-. now exists source. }
  split; [| split].
  - intros i v H. destruct (Hnth i v H) as [source [Hs ->]]. cbn.
    split; [reflexivity |]. split; [reflexivity |]. now exists source.
  - intros Hn i v H. destruct (Hnth i v H) as [source [_ ->]]. cbn.
    destruct (Z.ltb_spec 1 n) as [Hlt | Hge]; [lia | reflexivity].
  - intros Hn. split.
    + intros i v H. destruct (Hnth i v H) as [source [_ ->]]. cbn.
      destruct (Z.ltb_spec 1 n) as [Hlt | Hge]; [reflexivity | lia].
    + intros i j v v' Hi Hj.
      destruct (Hnth i v Hi) as [source [_ ->]].
      destruct (Hnth j v' Hj) as [source' [_ ->]]. cbn [Video.title].
      destruct (Z.ltb_spec 1 n) as [Hlt | Hge]; [| lia]. intros Ht.
      apply append_cancel_l, (append_cancel_l " (") in Ht.
      apply append_cancel_r, numberToString_inj in Ht. lia.
Qed.

Lemma variation_records_witness :
  let records := App.newVideosOf Scenario.twoGood 2%Z "Remix" "A beach at dawn"
                   [Some "AAAA"; Some "BBBB"] in
  (forall i v,
      nth_error records i = Some v ->
      Video.title v = "Remix" ++ " (" ++ numberToString (Z.of_nat i + 1) ++ "/"
                      ++ numberToString 2 ++ ")")
  /\ (forall i j v v',
         nth_error records i = Some v -> nth_error records j = Some v' ->
         Video.title v = Video.title v' -> i = j).
Proof.
  apply (proj2 (proj2 (proj2 (@variation_records Scenario.twoGood 2%Z "Remix"
                                "A beach at dawn" [Some "AAAA"; Some "BBBB"])))).
  reflexivity.
Defined.

(** ** Generating from the search field *)

Lemma filteredVideos_empty_query (s : App.State) :
  App.searchQuery s = "" -> App.filteredVideos s = App.videos s.
Proof.
  intros H. unfold App.filteredVideos. rewrite H. apply filter_true.
  intros video. destruct (toLowerCase (Video.title video)); reflexivity.
Qed.

Lemma newVideosOf_single (w : World) (n : Z) (baseTitle baseDescription : string)
    (sources : list (option string)) :
  (n <= 1)%Z ->
  Forall (fun v => Video.title v = baseTitle /\ Video.description v = baseDescription)
         (App.newVideosOf w n baseTitle baseDescription sources).
Proof.
  intros Hn. unfold App.newVideosOf, App.mapIndexed. generalize 0 as k.
  induction sources as [|source sources IH]; intros k; cbn [App.mapFrom];
    constructor; [| apply IH].
  cbn. destruct (Z.ltb_spec 1 n) as [Hlt | Hge]; [lia | now split].
Qed.

Lemma newVideosOf_nonempty (w : World) (n : Z) (baseTitle baseDescription : string)
    (sources : list (option string)) :
  sources <> [] -> App.newVideosOf w n baseTitle baseDescription sources <> [].
Proof. destruct sources; [contradiction | discriminate]. Qed.

(** X11.  Whenever a generation from the search field finishes, the search
    field is empty again, so the whole gallery is visible; and either new
    records are in front of the gallery list, each titled Generated from:
    and the prompt in quotes, without a counter, and each with the prompt
    as its description, or the gallery list is as it was and a banner is
    up. *)
Theorem search_generation (w : World) (polls : nat) (prompt : string)
    (s s' : App.State) :
  App.handleGenerateFromSearch w polls prompt s = Some s' ->
  App.searchQuery s' = ""
  /\ App.filteredVideos s' = App.videos s'
  /\ ((exists added,
         added <> []
         /\ App.videos s' = (added ++ App.videos s)%list
         /\ Forall (fun v =>
                      Video.title v = "Generated from: " ++ DQUOTE ++ prompt ++ DQUOTE
                      /\ Video.description v = prompt) added
         /\ App.playingVideo s' = hd_error added
         /\ App.generationError s' = None)
      \/ (App.videos s' = App.videos s
          /\ App.playingVideo s' = App.playingVideo s
          /\ exists details, App.generationError s' = Some details)).
Proof.
  unfold App.handleGenerateFromSearch.
  destruct (App.generateAndAddNewVideos w polls prompt 1 _ prompt AR_16_9 s)
    as [s1 |] eqn:H; [| discriminate].
  intros H'. injection H' as <-.
  split; [reflexivity |]. split; [now apply filteredVideos_empty_query |].
  destruct (generateAndAddNewVideos_outcome _ _ _ _ _ _ _ _ H)
    as [[sources [Hne ->]] | [error ->]]; cbn.
  - left.
    exists (App.newVideosOf w 1 ("Generated from: " ++ DQUOTE ++ prompt ++ DQUOTE)
              prompt sources).
    split; [now apply newVideosOf_nonempty |].
    split; [reflexivity |]. split; [apply newVideosOf_single; lia |].
    split; [| reflexivity].
    now destruct (App.newVideosOf w 1 _ prompt sources).
  - right. repeat (split; [reflexivity |]). eexists. reflexivity.
Qed.

Lemma search_generation_witness :
  let s' := App.mk
              [Video.mk "uuid-0" "data:video/mp4;base64,AAAA"
                 ("Generated from: " ++ DQUOTE ++ "a cat" ++ DQUOTE) "a cat";
               Scenario.beach]
              (Some (Video.mk "uuid-0" "data:video/mp4;base64,AAAA"
                       ("Generated from: " ++ DQUOTE ++ "a cat" ++ DQUOTE) "a cat"))
              None false "" None in
  App.searchQuery s' = ""
  /\ App.filteredVideos s' = App.videos s'
  /\ ((exists added,
         added <> []
         /\ App.videos s' = (added ++ [Scenario.beach])%list
         /\ Forall (fun v =>
                      Video.title v = "Generated from: " ++ DQUOTE ++ "a cat" ++ DQUOTE
                      /\ Video.description v = "a cat") added
         /\ App.playingVideo s' = hd_error added
         /\ App.generationError s' = None)
      \/ (App.videos s' = [Scenario.beach]
          /\ App.playingVideo s' = None
          /\ exists details, App.generationError s' = Some details)).
Proof.
  apply (@search_generation Scenario.oneGood 3 "a cat"
           (App.mk [Scenario.beach] None None false "a cat" None)).
  reflexivity.
Defined.

(** X12.  A key press in the search field starts a generation only when
    the key is Enter and the search text is not blank; the prompt is then
    the search text as typed, untrimmed.  Any other key, and Enter on an
    empty or white-space-only text, leaves the state as it is. *)
Theorem search_key_guard (w : World) (polls : nat) (key : string) (s : App.State) :
  ((key <> "Enter" \/ blank (App.searchQuery s) = true) ->
   App.handleSearchKeyDown w polls key s = Some s)
  /\ (key = "Enter" -> blank (App.searchQuery s) = false ->
      App.handleSearchKeyDown w polls key s
      = App.handleGenerateFromSearch w polls (App.searchQuery s) s).
Proof.
  unfold App.handleSearchKeyDown. rewrite trim_eqb_blank. split.
  - intros [Hkey | Hblank].
    + apply String.eqb_neq in Hkey. now rewrite Hkey.
    + rewrite Hblank. now rewrite andb_false_r.
  - intros -> Hblank. now rewrite Hblank.
Qed.

Lemma search_key_guard_witness :
  App.handleSearchKeyDown Scenario.oneGood 3 "Enter"
    (App.mk [Scenario.beach] None None false "   " None)
  = Some (App.mk [Scenario.beach] None None false "   " None)
  /\ App.handleSearchKeyDown Scenario.oneGood 3 "Enter"
       (App.mk [Scenario.beach] None None false " a cat " None)
     = App.handleGenerateFromSearch Scenario.oneGood 3 " a cat "
         (App.mk [Scenario.beach] None None false " a cat " None).
Proof.
  split.
  - apply (proj1 (@search_key_guard Scenario.oneGood 3 "Enter"
                    (App.mk [Scenario.beach] None None false "   " None))).
    right. reflexivity.
  - apply (proj2 (@search_key_guard Scenario.oneGood 3 "Enter"
                    (App.mk [Scenario.beach] None None false " a cat " None)));
      reflexivity.
Defined.

(** ** What is on the screen *)

Lemma filter_nil_iff {A} (keep : A -> bool) (l : list A) :
  filter keep l = [] <-> forall a, In a l -> keep a = false.
Proof.
  induction l as [|a l IH]; simpl.
  - split; [intros _ b [] | reflexivity].
  - destruct (keep a) eqn:E.
    + split; [discriminate |]. intros H. specialize (H a (or_introl eq_refl)). congruence.
    + rewrite IH. split.
      * intros H b [<- | Hb]; [exact E | now apply H].
      * intros H b Hb. apply H. now right.
Qed.

(** While no generation is running and no video is being edited, and for
    texts in the 8-bit range, the No Results panel with its Generate
    button is on the screen exactly when the search text is not empty and
    no video of the gallery contains it, case-insensitively, in its title
    or description; in every other case the grid of the matching videos is
    shown. *)
Lemma no_results_panel (s : App.State) :
  App.isSaving s = false ->
  App.editingVideo s = None ->
  (App.main (App.render s) = App.NoResultsFound
   <-> App.searchQuery s <> ""
       /\ forall video,
            In video (App.videos s) ->
            ~ ContainsNoCase (App.searchQuery s) (Video.title video)
            /\ ~ ContainsNoCase (App.searchQuery s) (Video.description video))
  /\ (App.main (App.render s) <> App.NoResultsFound ->
      App.main (App.render s) = App.VideoGrid (App.filteredVideos s)).
Proof.
  intros Hsaving Hediting. unfold App.render. rewrite Hsaving, Hediting.
  cbn [App.main].
  assert (Hnone : App.filteredVideos s = [] <->
                  forall video,
                    In video (App.videos s) ->
                    ~ ContainsNoCase (App.searchQuery s) (Video.title video)
                    /\ ~ ContainsNoCase (App.searchQuery s) (Video.description video)).
  { unfold App.filteredVideos. rewrite filter_nil_iff.
    split; intros H video Hin; specialize (H video Hin).
    - apply orb_false_iff in H. destruct H as [Ht Hd].
      rewrite <- !includes_toLowerCase. rewrite Ht, Hd. split; discriminate.
    - destruct H as [Ht Hd]. rewrite <- includes_toLowerCase in Ht, Hd.
      apply orb_false_iff. split.
      + now destruct (includes (toLowerCase (Video.title video)) _).
      + now destruct (includes (toLowerCase (Video.description video)) _). }
  destruct (App.filteredVideos s) as [|v shown] eqn:Hf; cbn [length Nat.ltb Nat.leb].
  - destruct (String.eqb_spec (App.searchQuery s) "") as [Hq | Hq]; cbn [negb].
    + split; [| reflexivity]. split; [discriminate |]. intros [Hne _]. contradiction.
    + split; [| intros H; now destruct H]. split; [| reflexivity].
      intros _. split; [exact Hq | now apply Hnone].
  - split; [| reflexivity]. split; [discriminate |].
    intros [_ H]. apply Hnone in H. discriminate.
Qed.

(** ** The gallery over time *)

Lemma handleGenerateFromSearch_grows (w : World) (polls : nat) (prompt : string)
    (s s' : App.State) :
  App.handleGenerateFromSearch w polls prompt s = Some s' ->
  (exists added, App.videos s' = (added ++ App.videos s)%list)
  /\ App.isSaving s' = false.
Proof.
  unfold App.handleGenerateFromSearch.
  destruct (App.generateAndAddNewVideos w polls prompt 1 _ prompt AR_16_9 s)
    as [s1 |] eqn:H; [| discriminate].
  intros H'. injection H' as <-.
  destruct (generateAndAddNewVideos_outcome _ _ _ _ _ _ _ _ H)
    as [[sources [_ ->]] | [error ->]]; cbn; split; try reflexivity.
  - eexists. reflexivity.
  - now exists [].
Qed.

Lemma step_grows (e : App.Event) (s s' : App.State) :
  App.step e s = Some s' ->
  (exists added, App.videos s' = (added ++ App.videos s)%list)
  /\ (App.isSaving s = false -> App.isSaving s' = false).
Proof.
  destruct e as [w file | video | | video | | w polls video options | query
                 | w polls key | w polls | ]; cbn [App.step];
    try (intros H; injection H as <-; split; [now exists [] | tauto]).
  - intros H; injection H as <-. destruct file as [file |]; cbn.
    + split; [| tauto]. eexists [_]. reflexivity.
    + split; [now exists [] | tauto].
  - unfold App.handleSaveEdit. intros H.
    destruct (generateAndAddNewVideos_outcome _ _ _ _ _ _ _ _ H)
      as [[sources [_ ->]] | [error ->]]; cbn; split; try reflexivity.
    + eexists. reflexivity.
    + now exists [].
  - unfold App.handleSearchKeyDown.
    destruct (_ && _).
    + intros H. apply handleGenerateFromSearch_grows in H. tauto.
    + intros H; injection H as <-. split; [now exists [] | tauto].
  - intros H. apply handleGenerateFromSearch_grows in H. tauto.
Qed.

(** X14.  Nothing the user does removes, changes or reorders a record of
    the gallery: after any sequence of uploads, plays, edits, remixes,
    searches, generations and dismissals that has run to its end, the
    gallery list is the list from before with the added records in front.
    The busy flag is down after the sequence if it was down before. *)
Theorem gallery_only_grows (events : list App.Event) :
  forall s s',
    App.run events s = Some s' ->
    (exists added, App.videos s' = (added ++ App.videos s)%list)
    /\ (App.isSaving s = false -> App.isSaving s' = false).
Proof.
  induction events as [|e rest IH]; intros s s'; cbn [App.run].
  - intros H; injection H as <-. split; [now exists [] | tauto].
  - destruct (App.step e s) as [s1 |] eqn:Hstep; [| discriminate].
    intros Hrun. destruct (step_grows _ _ Hstep) as [[added1 H1] Hs1].
    destruct (IH _ _ Hrun) as [[added2 H2] Hs2]. split; [| tauto].
    exists (added2 ++ added1)%list. now rewrite H2, H1, List.app_assoc.
Qed.

Lemma gallery_only_grows_witness :
  (exists added,
      App.videos
        (App.mk
           [Video.mk "uuid-0" "blob:clip.mov" "clip" "A user-uploaded video.";
            Scenario.beach]
           None None false "" None)
      = (added ++ App.videos Scenario.gallery)%list)
  /\ (App.isSaving Scenario.gallery = false ->
      App.isSaving
        (App.mk
           [Video.mk "uuid-0" "blob:clip.mov" "clip" "A user-uploaded video.";
            Scenario.beach]
           None None false "" None) = false).
Proof.
  apply (@gallery_only_grows
           [App.ChooseFile Scenario.twoGood (Some {| name := "clip.mov" |});
            App.PlayVideo Scenario.beach;
            App.StartEdit Scenario.beach;
            App.SaveEdit Scenario.oneBroken 3 Scenario.beach
              (Options.mk 2%Z Q_fast D_medium AR_16_9);
            App.CloseError]
           Scenario.gallery).
  reflexivity.
Defined.

(** ** What a remix stores *)

Lemma newVideosOf_description (w : World) (n : Z) (baseTitle baseDescription : string)
    (sources : list (option string)) :
  Forall (fun v => Video.description v = baseDescription)
         (App.newVideosOf w n baseTitle baseDescription sources).
Proof.
  unfold App.newVideosOf, App.mapIndexed. generalize 0 as k.
  induction sources as [|source sources IH]; intros k; cbn [App.mapFrom];
    constructor; [reflexivity | apply IH].
Qed.

(** X15.  The records a remix adds store the description the editor saved:
    the original description, followed by the instruction phrase when the
    mask was active and the instruction not blank.  The quality and
    duration phrases are sent to the service in the prompt but are never
    stored in a record. *)
Theorem remix_stores_saved_description (w : World) (polls : nat) (video : Video.t)
    (p : EditVideoPage.State) (s s' : App.State) :
  saveRemix w polls video p s = Some s' ->
  exists added,
    App.videos s' = (added ++ App.videos s)%list
    /\ Forall
         (fun v =>
            Video.description v
            = Video.description video
              ++ (if EditVideoPage.isMaskActive p
                     && negb (blank (EditVideoPage.editPrompt p))
                  then instructionPhrase (EditVideoPage.editPrompt p) else ""))
         added.
Proof.
  unfold saveRemix, EditVideoPage.handleSave, App.handleSaveEdit.
  cbn [Video.description Video.title Options.numberOfVideos Options.aspectRatio].
  rewrite trim_eqb_blank. intros H.
  destruct (generateAndAddNewVideos_outcome _ _ _ _ _ _ _ _ H)
    as [[sources [_ ->]] | [error ->]]; cbn [App.videos App.setEditingVideo].
  - eexists. split; [reflexivity |].
    eapply Forall_impl; [| apply newVideosOf_description].
    intros v ->.
    destruct (EditVideoPage.isMaskActive p && negb (blank (EditVideoPage.editPrompt p)));
      [reflexivity | now rewrite append_nil_r].
  - exists []. split; [reflexivity | constructor].
Qed.

Lemma remix_stores_saved_description_witness :
  exists added,
    App.videos
      (App.mk
         [Video.mk "uuid-0" "data:video/mp4;base64,AAAA"
            ("Remix of " ++ DQUOTE ++ "Beach" ++ DQUOTE)
            ("A beach at dawn" ++ instructionPhrase "add a cat");
          Scenario.beach]
         (Some (Video.mk "uuid-0" "data:video/mp4;base64,AAAA"
                  ("Remix of " ++ DQUOTE ++ "Beach" ++ DQUOTE)
                  ("A beach at dawn" ++ instructionPhrase "add a cat")))
         None false "" None)
    = (added ++ App.videos Scenario.gallery)%list
    /\ Forall
         (fun v =>
            Video.description v
            = Video.description Scenario.beach
              ++ (if true && negb (blank "add a cat")
                  then instructionPhrase "add a cat" else ""))
         added.
Proof.
  apply (@remix_stores_saved_description Scenario.oneGood 3 Scenario.beach
           (EditVideoPage.mk "add a cat" true 1%Z Q_quality D_long AR_16_9
              VideoMaskEditor.initial)
           Scenario.gallery).
  reflexivity.
Defined.

(** ** The mask editor *)

Lemma handle_keeps_mask (e : VideoMaskEditor.Event) (s : VideoMaskEditor.State) :
  e <> VideoMaskEditor.ClickClear ->
  VideoMaskEditor.hasMask s = true ->
  VideoMaskEditor.hasMask (fst (VideoMaskEditor.handle e s)) = true.
Proof.
  intros He Hs. destruct s as [drawing mask marks]. cbn in Hs. subst mask.
  destruct e, drawing; try reflexivity; contradiction.
Qed.

Lemma run_keeps_mask (events : list VideoMaskEditor.Event) :
  forall s,
    ~ In VideoMaskEditor.ClickClear events ->
    VideoMaskEditor.hasMask s = true ->
    VideoMaskEditor.hasMask (VideoMaskEditor.run events s) = true.
Proof.
  induction events as [|e rest IH]; intros s Hno Hs; [exact Hs |].
  cbn [VideoMaskEditor.run]. apply IH.
  - intros H. apply Hno. now right.
  - apply handle_keeps_mask; [| exact Hs]. intros ->. apply Hno. now left.
Qed.

(** X16.  The mask flag is raised by a press on the canvas and lowered by
    nothing but the clear button: after a press, whatever pointer events
    follow (moves, releases, leaving the canvas, further presses), the
    component still has its mask; the clear button then lowers the flag
    and empties the canvas. *)
Theorem mask_persists_until_cleared (s : VideoMaskEditor.State) (x y : Z)
    (events : list VideoMaskEditor.Event) :
  ~ In VideoMaskEditor.ClickClear events ->
  let after := VideoMaskEditor.run (VideoMaskEditor.MouseDown x y :: events) s in
  VideoMaskEditor.hasMask after = true
  /\ VideoMaskEditor.hasMask
       (fst (VideoMaskEditor.clearMask after)) = false
  /\ VideoMaskEditor.canvas (fst (VideoMaskEditor.clearMask after)) = [].
Proof.
  intros Hno. cbn zeta. split; [| split; reflexivity].
  cbn [VideoMaskEditor.run]. apply run_keeps_mask; [exact Hno |].
  cbn [VideoMaskEditor.handle]. unfold VideoMaskEditor.startDrawing.
  now destruct (VideoMaskEditor.hasMask s).
Qed.

Lemma mask_persists_until_cleared_witness :
  let after :=
    VideoMaskEditor.run
      [VideoMaskEditor.MouseDown 10 10; VideoMaskEditor.MouseMove 12 14;
       VideoMaskEditor.MouseUp; VideoMaskEditor.MouseLeave;
       VideoMaskEditor.MouseMove 40 40]
      VideoMaskEditor.initial in
  VideoMaskEditor.hasMask after = true
  /\ VideoMaskEditor.hasMask (fst (VideoMaskEditor.clearMask after)) = false
  /\ VideoMaskEditor.canvas (fst (VideoMaskEditor.clearMask after)) = [].
Proof.
  apply (@mask_persists_until_cleared VideoMaskEditor.initial 10%Z 10%Z
           [VideoMaskEditor.MouseMove 12 14; VideoMaskEditor.MouseUp;
            VideoMaskEditor.MouseLeave; VideoMaskEditor.MouseMove 40 40]).
  intros [H | [H | [H | [H | []]]]]; discriminate.
Defined.

Lemma handle_idle (e : VideoMaskEditor.Event) :
  (forall x y, e <> VideoMaskEditor.MouseDown x y) ->
  VideoMaskEditor.handle e VideoMaskEditor.initial
  = (VideoMaskEditor.initial,
     match e with VideoMaskEditor.ClickClear => Some false | _ => None end).
Proof.
  intros He. destruct e as [x y | x y | | |]; try reflexivity.
  now destruct (He x y).
Qed.

(** X17.  Without a press on the canvas nothing is drawn: from the state
    the component opens in, moving the pointer over the canvas, releasing
    it, leaving the canvas and clicking clear, in any number and order,
    leave the canvas empty, the mask flag down and the component idle. *)
Theorem hover_draws_nothing (events : list VideoMaskEditor.Event) :
  (forall x y, ~ In (VideoMaskEditor.MouseDown x y) events) ->
  VideoMaskEditor.run events VideoMaskEditor.initial = VideoMaskEditor.initial.
Proof.
  induction events as [|e rest IH]; intros Hno; [reflexivity |].
  cbn [VideoMaskEditor.run]. rewrite handle_idle.
  - apply IH. intros x y H. apply (Hno x y). now right.
  - intros x y ->. apply (Hno x y). now left.
Qed.

Lemma hover_draws_nothing_witness :
  VideoMaskEditor.run
    [VideoMaskEditor.MouseMove 3 4; VideoMaskEditor.MouseUp;
     VideoMaskEditor.ClickClear; VideoMaskEditor.MouseLeave]
    VideoMaskEditor.initial
  = VideoMaskEditor.initial.
Proof.
  apply (@hover_draws_nothing
           [VideoMaskEditor.MouseMove 3 4; VideoMaskEditor.MouseUp;
            VideoMaskEditor.ClickClear; VideoMaskEditor.MouseLeave]).
  intros x y [H | [H | [H | [H | []]]]]; discriminate.
Defined.

(** ** The editor page over time *)

Lemma step_invariant (e : EditVideoPage.Event) (p : EditVideoPage.State) :
  EditVideoPage.isMaskActive p = VideoMaskEditor.hasMask (EditVideoPage.maskEditor p) ->
  (1 <= EditVideoPage.numberOfVideos p <= 4)%Z ->
  let p' := EditVideoPage.step e p in
  EditVideoPage.isMaskActive p' = VideoMaskEditor.hasMask (EditVideoPage.maskEditor p')
  /\ (1 <= EditVideoPage.numberOfVideos p' <= 4)%Z.
Proof.
  intros Hsync Hrange. cbn zeta.
  destruct e as [m | text | a | q | d | a]; cbn [EditVideoPage.step].
  - split.
    + exact (mask_flag_in_sync [m] p Hsync).
    + unfold EditVideoPage.onMaskEditor.
      now destruct (VideoMaskEditor.handle m (EditVideoPage.maskEditor p)).
  - destruct (EditVideoPage.isMaskActive p) eqn:E; cbn;
      (split; [congruence | exact Hrange]).
  - split; [destruct a; exact Hsync | now apply press_in_range].
  - now split.
  - now split.
  - now split.
Qed.

(** X18.  Whatever the user does on the editor page, in any order (draw,
    clear, type, press the counter buttons, pick a quality, a duration or
    a ratio), the page's mask flag says whether the mask editor has a
    mask, and the variation count is between 1 and 4. *)
Theorem page_invariant (events : list EditVideoPage.Event) :
  let p := EditVideoPage.run events EditVideoPage.initial in
  EditVideoPage.isMaskActive p = VideoMaskEditor.hasMask (EditVideoPage.maskEditor p)
  /\ (1 <= EditVideoPage.numberOfVideos p <= 4)%Z.
Proof.
  cbn zeta.
  assert (H : forall p,
             EditVideoPage.isMaskActive p
             = VideoMaskEditor.hasMask (EditVideoPage.maskEditor p) ->
             (1 <= EditVideoPage.numberOfVideos p <= 4)%Z ->
             EditVideoPage.isMaskActive (EditVideoPage.run events p)
             = VideoMaskEditor.hasMask
                 (EditVideoPage.maskEditor (EditVideoPage.run events p))
             /\ (1 <= EditVideoPage.numberOfVideos (EditVideoPage.run events p) <= 4)%Z).
  { induction events as [|e rest IH]; intros p Hsync Hrange; [now split |].
    cbn [EditVideoPage.run].
    destruct (step_invariant e p Hsync Hrange) as [Hs Hr]. now apply IH. }
  apply H; [reflexivity | cbn; lia].
Qed.

Lemma step_without_press (e : EditVideoPage.Event) (p : EditVideoPage.State) :
  (forall x y, e <> EditVideoPage.OnMask (VideoMaskEditor.MouseDown x y)) ->
  EditVideoPage.isMaskActive p = false ->
  EditVideoPage.editPrompt p = "" ->
  EditVideoPage.maskEditor p = VideoMaskEditor.initial ->
  EditVideoPage.isMaskActive (EditVideoPage.step e p) = false
  /\ EditVideoPage.editPrompt (EditVideoPage.step e p) = ""
  /\ EditVideoPage.maskEditor (EditVideoPage.step e p) = VideoMaskEditor.initial.
Proof.
  intros He Hmask Hprompt Heditor.
  destruct e as [m | text | a | q | d | a]; cbn [EditVideoPage.step].
  - unfold EditVideoPage.onMaskEditor. rewrite Heditor, handle_idle.
    + destruct m; cbn; auto.
    + intros x y ->. now apply (He x y).
  - rewrite Hmask. auto.
  - destruct a; cbn; auto.
  - cbn; auto.
  - cbn; auto.
  - cbn; auto.
Qed.

(** X19.  Without a press on the canvas the editor never changes the
    description: after any events on the page that do not include one
    (typing is not possible on the disabled field), saving hands over the
    video exactly as it was given, with the options picked. *)
Theorem save_without_mask_keeps_video (video : Video.t)
    (events : list EditVideoPage.Event) :
  (forall x y, ~ In (EditVideoPage.OnMask (VideoMaskEditor.MouseDown x y)) events) ->
  fst (EditVideoPage.handleSave video (EditVideoPage.run events EditVideoPage.initial))
  = video.
Proof.
  intros Hno.
  assert (H : forall p,
             EditVideoPage.isMaskActive p = false ->
             EditVideoPage.editPrompt p = "" ->
             EditVideoPage.maskEditor p = VideoMaskEditor.initial ->
             EditVideoPage.isMaskActive (EditVideoPage.run events p) = false).
  { induction events as [|e rest IH]; intros p Hm Hp He; [exact Hm |].
    cbn [EditVideoPage.run].
    assert (Hfirst : forall x y,
               e <> EditVideoPage.OnMask (VideoMaskEditor.MouseDown x y))
      by (intros x y ->; apply (Hno x y); now left).
    destruct (@step_without_press e p Hfirst Hm Hp He) as [Hm' [Hp' He']].
    apply IH; auto. intros x y Hin. apply (Hno x y). now right. }
  unfold EditVideoPage.handleSave. rewrite H by reflexivity.
  cbn. now destruct video.
Qed.

Lemma save_without_mask_keeps_video_witness :
  fst (EditVideoPage.handleSave Scenario.beach
         (EditVideoPage.run
            [EditVideoPage.TypeInstruction "add a cat";
             EditVideoPage.Press EditVideoPage.Increment;
             EditVideoPage.OnMask (VideoMaskEditor.MouseMove 5 5);
             EditVideoPage.PickQuality Q_quality]
            EditVideoPage.initial))
  = Scenario.beach.
Proof.
  apply (@save_without_mask_keeps_video Scenario.beach
           [EditVideoPage.TypeInstruction "add a cat";
            EditVideoPage.Press EditVideoPage.Increment;
            EditVideoPage.OnMask (VideoMaskEditor.MouseMove 5 5);
            EditVideoPage.PickQuality Q_quality]).
  intros x y [H | [H | [H | [H | []]]]]; discriminate.
Defined.

(** X20.  Below the upper bound an increment is undone by a decrement, and
    above the lower bound a decrement is undone by an increment; at the
    bounds the buttons do nothing, so there the round trip is lost. *)
Theorem counter_round_trip (p : EditVideoPage.State) :
  ((1 <= EditVideoPage.numberOfVideos p <= 3)%Z ->
   EditVideoPage.decrementVideos (EditVideoPage.incrementVideos p) = p)
  /\ ((2 <= EditVideoPage.numberOfVideos p <= 4)%Z ->
      EditVideoPage.incrementVideos (EditVideoPage.decrementVideos p) = p)
  /\ (EditVideoPage.numberOfVideos p = 4%Z -> EditVideoPage.incrementVideos p = p)
  /\ (EditVideoPage.numberOfVideos p = 1%Z -> EditVideoPage.decrementVideos p = p).
Proof.
  destruct p as [text active n q d a m].
  unfold EditVideoPage.incrementVideos, EditVideoPage.decrementVideos,
    EditVideoPage.setNumberOfVideos, Math_min, Math_max.
  cbn. repeat split; intros H; f_equal; lia.
Qed.

Lemma counter_round_trip_witness :
  EditVideoPage.decrementVideos (EditVideoPage.incrementVideos EditVideoPage.initial)
  = EditVideoPage.initial.
Proof.
  apply (proj1 (@counter_round_trip EditVideoPage.initial)). cbn. lia.
Defined.

(** ** The earlier application *)

Lemma later_prompt_text (video : Video.t) (options : Options.t) :
  Options.duration options <> D_medium ->
  EarlierApp.promptTextOf video (withoutAspectRatio options)
  = App.promptTextOf video options.
Proof.
  intros H. unfold App.promptTextOf, EarlierApp.promptTextOf, withoutAspectRatio.
  cbn [EarlierApp.quality EarlierApp.duration].
  destruct (Options.duration options); [reflexivity | contradiction | reflexivity].
Qed.

(** X21.  The prompt of the later application is the prompt of the earlier
    one followed, for the medium duration only, by the medium phrase: the
    earlier application appends nothing for the medium tier, the later
    one a phrase for every tier. *)
Theorem later_prompt_adds_medium_phrase (video : Video.t) (options : Options.t) :
  App.promptTextOf video options
  = EarlierApp.promptTextOf video (withoutAspectRatio options)
    ++ match Options.duration options with
       | D_medium => LF ++ LF ++ "(Medium video, ~10 seconds)"
       | D_short | D_long => ""
       end.
Proof.
  unfold App.promptTextOf, EarlierApp.promptTextOf, withoutAspectRatio.
  cbn [EarlierApp.quality EarlierApp.duration].
  destruct (Options.quality options), (Options.duration options);
    rewrite ?append_nil_r; reflexivity.
Qed.

Lemma mapFrom_ext {A B} (f g : A -> nat -> B) (l : list A) :
  (forall a i, f a i = g a i) ->
  forall k, App.mapFrom k f l = App.mapFrom k g l.
Proof.
  intros H. induction l as [|a l IH]; intros k; cbn; [reflexivity |].
  now rewrite H, IH.
Qed.

Lemma earlier_newVideosOf (w : World) (video : Video.t) (options : Options.t)
    (sources : list (option string)) :
  EarlierApp.newVideosOf w video (withoutAspectRatio options) sources
  = App.newVideosOf w (Options.numberOfVideos options)
      ("Remix of " ++ DQUOTE ++ Video.title video ++ DQUOTE)
      (Video.description video) sources.
Proof.
  unfold EarlierApp.newVideosOf, App.newVideosOf, App.mapIndexed.
  apply mapFrom_ext. intros source index. cbn [withoutAspectRatio EarlierApp.numberOfVideos].
  destruct (1 <? Options.numberOfVideos options)%Z; [| reflexivity].
  f_equal. now rewrite !append_assoc.
Qed.

Lemma earlier_generateVideoFromText (w : World) (polls : nat) (prompt : string)
    (n : Z) :
  EarlierApp.generateVideoFromText w polls prompt n
  = App.generateVideoFromText w polls prompt n AR_16_9.
Proof. reflexivity. Qed.

(** X22.  For the short and the long duration and the 16:9 ratio, a remix
    in the later application does what it did in the earlier one: the two
    [handleSaveEdit] send the same request and end, up to the search field
    the earlier state lacks, in the same state, with the same records,
    played video and banner. *)
Theorem handleSaveEdit_agrees_with_earlier (w : World) (polls : nat)
    (video : Video.t) (options : Options.t) (s : App.State) :
  Options.duration options <> D_medium ->
  Options.aspectRatio options = AR_16_9 ->
  option_map withoutSearch (App.handleSaveEdit w polls video options s)
  = EarlierApp.handleSaveEdit w polls video (withoutAspectRatio options)
      (withoutSearch s).
Proof.
  intros Hduration Hratio.
  unfold App.handleSaveEdit, EarlierApp.handleSaveEdit, App.generateAndAddNewVideos.
  rewrite earlier_generateVideoFromText, Hratio.
  assert (Hprompt : EarlierApp.promptTextOf video (withoutAspectRatio options)
                    = App.promptTextOf video options).
  { now apply later_prompt_text. }
  rewrite Hprompt. cbn [withoutAspectRatio EarlierApp.numberOfVideos].
  destruct (App.generateVideoFromText w polls (App.promptTextOf video options)
              (Options.numberOfVideos options) AR_16_9)
    as [[error | sources] |]; [reflexivity | | reflexivity].
  destruct sources as [|source sources]; [reflexivity |].
  cbn [bind length Nat.eqb]. unfold resolve.
  change (EarlierApp.mkOptions (Options.numberOfVideos options)
            (Options.quality options) (Options.duration options))
    with (withoutAspectRatio options).
  now rewrite earlier_newVideosOf.
Qed.

Lemma handleSaveEdit_agrees_with_earlier_witness :
  option_map withoutSearch
    (App.handleSaveEdit Scenario.twoGood 3 Scenario.beach
       (Options.mk 2%Z Q_quality D_long AR_16_9) Scenario.gallery)
  = EarlierApp.handleSaveEdit Scenario.twoGood 3 Scenario.beach
      (withoutAspectRatio (Options.mk 2%Z Q_quality D_long AR_16_9))
      (withoutSearch Scenario.gallery).
Proof.
  apply (@handleSaveEdit_agrees_with_earlier Scenario.twoGood 3 Scenario.beach
           (Options.mk 2%Z Q_quality D_long AR_16_9) Scenario.gallery).
  - discriminate.
  - reflexivity.
Defined.

(** ** From a blob to a source *)

Lemma split_at_first (sep : ascii) (a b : string) :
  lacks sep a = true ->
  split sep (a ++ String sep b) = a :: split sep b.
Proof.
  induction a as [|c a IH]; cbn [lacks append split].
  - intros _. now rewrite Ascii.eqb_refl.
  - intros H. apply andb_true_iff in H. destruct H as [Hc Ha].
    apply negb_true_iff in Hc. rewrite Hc, (IH Ha). reflexivity.
Qed.

Lemma split_none (sep : ascii) (b : string) :
  lacks sep b = true -> split sep b = [b].
Proof.
  induction b as [|c b IH]; cbn [lacks split]; [reflexivity |].
  intros H. apply andb_true_iff in H. destruct H as [Hc Hb].
  apply negb_true_iff in Hc. rewrite Hc, (IH Hb). reflexivity.
Qed.

(** X23.  For a blob of any media type, read as the data URL
    data:<type>;base64,<payload>, the conversion gives back the payload,
    and the URL stored with the record is data:video/mp4;base64,<payload>:
    the type of the blob is dropped and video/mp4 is declared in its place.
    A reader result without a comma gives no payload, and the stored URL
    then ends in the word undefined. *)
Theorem blob_to_source (mediaType payload url : string) :
  (lacks ","%char mediaType = true -> lacks ","%char payload = true ->
   App.bloblToBase64 {| readAsDataURL := "data:" ++ mediaType ++ ";base64," ++ payload |}
   = Some payload
   /\ "data:" ++ "video/mp4" ++ ";base64,"
      ++ interpolate
           (App.bloblToBase64
              {| readAsDataURL := "data:" ++ mediaType ++ ";base64," ++ payload |})
      = "data:video/mp4;base64," ++ payload)
  /\ (lacks ","%char url = true ->
      App.bloblToBase64 {| readAsDataURL := url |} = None
      /\ "data:" ++ "video/mp4" ++ ";base64,"
         ++ interpolate (App.bloblToBase64 {| readAsDataURL := url |})
         = "data:video/mp4;base64,undefined").
Proof.
  split.
  - intros Hm Hp.
    assert (H : App.bloblToBase64
                  {| readAsDataURL := "data:" ++ mediaType ++ ";base64," ++ payload |}
                = Some payload).
    { unfold App.bloblToBase64. cbn [readAsDataURL].
      replace ("data:" ++ mediaType ++ ";base64," ++ payload)
        with (("data:" ++ mediaType ++ ";base64") ++ String ","%char payload)
        by (now rewrite !append_assoc).
      rewrite split_at_first, (split_none _ _ Hp); [reflexivity |].
      rewrite !lacks_app, Hm. reflexivity. }
    split; [exact H | now rewrite H].
  - intros Hu.
    assert (H : App.bloblToBase64 {| readAsDataURL := url |} = None).
    { unfold App.bloblToBase64. cbn [readAsDataURL]. now rewrite (split_none _ _ Hu). }
    split; [exact H | now rewrite H].
Qed.

Lemma blob_to_source_witness :
  App.bloblToBase64
    {| readAsDataURL := "data:" ++ "video/webm" ++ ";base64," ++ "GkXfo59ChoEB" |}
  = Some "GkXfo59ChoEB"
  /\ "data:" ++ "video/mp4" ++ ";base64,"
     ++ interpolate
          (App.bloblToBase64
             {| readAsDataURL := "data:" ++ "video/webm" ++ ";base64," ++ "GkXfo59ChoEB" |})
     = "data:video/mp4;base64," ++ "GkXfo59ChoEB".
Proof.
  apply (proj1 (@blob_to_source "video/webm" "GkXfo59ChoEB" "")); reflexivity.
Defined.

(** ** When the orchestrator returns *)

(** X24.  The orchestrator returns exactly when the job of the request is
    done, within the bound on the polls, with at least one generated video
    and the fetch of every video delivers its blob (the URI decodes, the
    answer has a success status, the body is read); what it returns is
    then the converted payload of each blob, in the order of the job's
    list. *)
Theorem orchestrator_returns_exactly_when (w : World) (polls : nat) (prompt : string)
    (n : Z) (ar : AspectRatio) (sources : list (option string)) :
  App.generateVideoFromText w polls prompt n ar = Some (inr sources)
  <-> exists operation resp videos blobs,
        Completes w polls prompt n ar operation
        /\ response operation = Some resp
        /\ generatedVideos resp = Some videos
        /\ videos <> []
        /\ Forall2 (Delivers w) videos blobs
        /\ sources = map App.bloblToBase64 blobs.
Proof.
  split.
  - intros H.
    destruct (generateVideoFromText_returns _ _ _ _ _ H) as [operation [Hdone Hcollect]].
    destruct (collectVideos_returns _ _ Hcollect) as [resp [videos [Hr [Hv [Hne Hall]]]]].
    destruct (batch_fulfilled _ _ Hall) as [blobs [Hblobs ->]].
    now exists operation, resp, videos, blobs.
  - intros [operation [resp [videos [blobs [Hdone [Hr [Hv [Hne [Hok ->]]]]]]]]].
    now apply (generateVideoFromText_succeeds Hdone Hr Hv).
Qed.

Lemma orchestrator_returns_exactly_when_witness :
  App.generateVideoFromText Scenario.twoGood 3 "A beach at dawn" 2%Z AR_16_9
  = Some (inr (map App.bloblToBase64
                   [{| readAsDataURL := "data:video/mp4;base64,AAAA" |};
                    {| readAsDataURL := "data:video/mp4;base64,AAAA" |}])).
Proof.
  apply (proj2 (@orchestrator_returns_exactly_when Scenario.twoGood 3
                  "A beach at dawn" 2%Z AR_16_9 _)).
  exists (Scenario.finished (Some [Scenario.good1; Scenario.good2])),
         {| generatedVideos := Some [Scenario.good1; Scenario.good2] |},
         [Scenario.good1; Scenario.good2],
         [{| readAsDataURL := "data:video/mp4;base64,AAAA" |};
          {| readAsDataURL := "data:video/mp4;base64,AAAA" |}].
  split; [exists Scenario.pending; split; reflexivity |].
  split; [reflexivity |]. split; [reflexivity |]. split; [discriminate |].
  split; [| reflexivity].
  constructor; [| constructor; [| constructor]].
  - exists Scenario.answer200. split; [| split; reflexivity].
    exists "https://videos.example/1?alt=media", 2. split; reflexivity.
  - exists Scenario.answer200. split; [| split; reflexivity].
    exists "https://videos.example/2?alt=media", 2. split; reflexivity.
Defined.
